(** * TradieTalk: the quote ledger, the totals engine and the credential store

    A shallow embedding of [script.js].  JavaScript numbers are IEEE 754
    binary64 values, modelled with the Standard Library's [spec_float] at
    precision 53 and maximal exponent 1024, every operation rounding to
    nearest, ties to even.  JavaScript strings are sequences of UTF-16 code
    units.  The page and the browser storage are explicit state records that
    the event handlers transform. *)

From Stdlib Require Import ZArith NArith List Bool Lia String Ascii.
From Stdlib Require Import Floats.SpecFloat.
From Stdlib Require Import Numbers.DecimalString Numbers.DecimalN.
Import ListNotations.

Set Implicit Arguments.
Set Warnings "-register-all".

(* ------------------------------------------------------------------ *)
(** ** Strings *)

Module JsString.

Definition code_unit := N.
Definition jsstring := list code_unit.

(** An ASCII literal as a JavaScript string. *)
Definition str (s : string) : jsstring :=
  map N_of_ascii (list_ascii_of_string s).

Definition cu_eqb : code_unit -> code_unit -> bool := N.eqb.

Fixpoint jseqb (a b : jsstring) : bool :=
  match a, b with
  | [], [] => true
  | x :: a', y :: b' => cu_eqb x y && jseqb a' b'
  | _, _ => false
  end.

(** WhiteSpace and LineTerminator of ECMAScript: what [trim], [parseFloat]
    and the regular expression class [\s] skip. *)
Definition is_white_space (c : code_unit) : bool :=
  ((9 <=? c) && (c <=? 13) || (c =? 32) || (c =? 160) || (c =? 5760)
   || (8192 <=? c) && (c <=? 8202) || (c =? 8232) || (c =? 8233)
   || (c =? 8239) || (c =? 8287) || (c =? 12288) || (c =? 65279))%N.

Fixpoint trim_start (s : jsstring) : jsstring :=
  match s with
  | c :: s' => if is_white_space c then trim_start s' else s
  | [] => []
  end.

Definition trim_end (s : jsstring) : jsstring :=
  rev (trim_start (rev s)).

(** [String.prototype.trim] *)
Definition trim (s : jsstring) : jsstring := trim_end (trim_start s).

Fixpoint starts_with (p s : jsstring) : option jsstring :=
  match p, s with
  | [], _ => Some s
  | x :: p', y :: s' => if cu_eqb x y then starts_with p' s' else None
  | _ :: _, [] => None
  end.

(** ToBoolean on a string: only the empty string is falsy. *)
Definition truthy_string (s : jsstring) : bool :=
  match s with [] => false | _ => true end.

(** [a || b] on strings *)
Definition or_string (a b : jsstring) : jsstring :=
  if truthy_string a then a else b.

End JsString.
Import JsString.

(* ------------------------------------------------------------------ *)
(** ** Numbers *)

Module JsNumber.

Definition prec : Z := 53.
Definition emax : Z := 1024.

Definition number := spec_float.

Definition add : number -> number -> number := SFadd prec emax.
Definition mul : number -> number -> number := SFmul prec emax.
Definition div : number -> number -> number := SFdiv prec emax.

Definition NaN : number := S754_nan.
Definition zero : number := S754_zero false.

Definition is_nan (x : number) : bool :=
  match x with S754_nan => true | _ => false end.

Definition is_finite (x : number) : bool :=
  match x with S754_zero _ | S754_finite _ _ _ => true | _ => false end.

(** [x < 0]: false for both zeros and for NaN. *)
Definition is_negative (x : number) : bool :=
  match x with
  | S754_finite true _ _ | S754_infinity true => true
  | _ => false
  end.

(** ToBoolean on a number: [0], [-0] and [NaN] are falsy. *)
Definition truthy (x : number) : bool :=
  match x with S754_zero _ | S754_nan => false | _ => true end.

(** [a || b] on numbers *)
Definition or_number (a b : number) : number :=
  if truthy a then a else b.

(** The Number value of the decimal [d * 10^e] with sign [neg]: the
    nearest binary64 value, ties to even, overflowing to infinity. *)
Definition of_decimal (neg : bool) (d : Z) (e : Z) : number :=
  match d with
  | Zpos p =>
      match e with
      | Zneg k =>
          let '(q, e', l) :=
            SFdiv_core_binary prec emax (Zpos p) 0 (Zpos (Pos.pow 10 k)) 0 in
          binary_round_aux prec emax neg q e' l
      | _ => binary_normalize prec emax
               (cond_Zopp neg (Zpos p * 10 ^ e)) 0 neg
      end
  | _ => S754_zero neg
  end.

Definition of_Z (z : Z) : number := of_decimal (z <? 0)%Z (Z.abs z) 0.

(** The numeric literals of the source. *)
Definition lit_100 : number := of_Z 100.
Definition lit_0_1 : number := of_decimal false 1 (-1).

End JsNumber.
Import JsNumber.

Declare Scope num_scope.
Delimit Scope num_scope with num.
Infix "+" := add : num_scope.
Infix "*" := mul : num_scope.
Infix "/" := div : num_scope.
Infix "||" := or_number : num_scope.

(* ------------------------------------------------------------------ *)
(** ** [parseFloat] *)

Module ParseFloat.

Definition is_digit (c : code_unit) : bool := ((48 <=? c) && (c <=? 57))%N.

(** The longest run of decimal digits at the head of [s], most
    significant first, and what follows it. *)
Fixpoint span_digits (s : jsstring) : list Z * jsstring :=
  match s with
  | c :: s' =>
      if is_digit c then
        let '(ds, r) := span_digits s' in (Z.of_N (c - 48) :: ds, r)
      else ([], s)
  | [] => ([], [])
  end.

Definition digits_value (ds : list Z) : Z :=
  fold_left (fun acc d => 10 * acc + d)%Z ds 0%Z.

(** An optional sign: [+] is 43, [-] is 45. *)
Definition take_sign (s : jsstring) : bool * jsstring :=
  match s with
  | c :: r =>
      if (c =? 43)%N then (false, r)
      else if (c =? 45)%N then (true, r)
      else (false, s)
  | [] => (false, s)
  end.

(** ExponentPart, when one is there: [e] or [E], an optional sign, at
    least one digit.  Otherwise the exponent is 0 and the literal ended
    before it. *)
Definition exponent_part (s : jsstring) : Z :=
  match s with
  | c :: r =>
      if ((c =? 101) || (c =? 69))%N then
        let '(neg, r') := take_sign r in
        match span_digits r' with
        | ([], _) => 0%Z
        | (ds, _) => cond_Zopp neg (digits_value ds)
        end
      else 0%Z
  | [] => 0%Z
  end.

(** [parseFloat(string)]: leading white space is skipped, the longest
    prefix that is a StrDecimalLiteral is converted, and [NaN] is returned
    when there is none.  The conversion is exact for any number of
    digits, as the engines in use do it. *)
Definition parseFloat (input : jsstring) : number :=
  let '(neg, s) := take_sign (trim_start input) in
  match starts_with (str "Infinity") s with
  | Some _ => S754_infinity neg
  | None =>
      let '(ip, r1) := span_digits s in
      let '(fp, r2) :=
        match r1 with
        | c :: r => if (c =? 46)%N then span_digits r else ([], r1)
        | [] => ([], r1)
        end in
      match ip, fp with
      | [], [] => NaN
      | _, _ =>
          of_decimal neg (digits_value (ip ++ fp))
            (exponent_part r2 - Z.of_nat (List.length fp))
      end
  end.

End ParseFloat.
Import ParseFloat.

(* ------------------------------------------------------------------ *)
(** ** Numbers as text: [Number::toString] and [toFixed(2)] *)

Module NumberText.

Definition decimal_digits (n : Z) : jsstring :=
  str (NilZero.string_of_uint (N.to_uint (Z.to_N n))).

Definition sf_eqb (x y : number) : bool :=
  match x, y with
  | S754_zero a, S754_zero b => Bool.eqb a b
  | S754_infinity a, S754_infinity b => Bool.eqb a b
  | S754_nan, S754_nan => true
  | S754_finite a m e, S754_finite b m' e' =>
      Bool.eqb a b && Pos.eqb m m' && Z.eqb e e'
  | _, _ => false
  end.

(** The non-negative value [m * 2^e] as a fraction. *)
Definition fraction (m : positive) (e : Z) : Z * Z :=
  match e with
  | Zneg k => (Zpos m, 2 ^ Zpos k)%Z
  | _ => (Zpos m * 2 ^ e, 1)%Z
  end.

(** The least [t >= 0] with [num * 10^t >= den]. *)
Fixpoint leading_zeros (num den : Z) (t : Z) (fuel : nat) : Z :=
  match fuel with
  | 0 => t
  | S fuel' =>
      if (den <=? num * 10 ^ t)%Z then t
      else leading_zeros num den (t + 1) fuel'
  end.

(** The [n] with [10^(n-1) <= num/den < 10^n]. *)
Definition magnitude (num den : Z) : Z :=
  if (den <=? num)%Z
  then Z.of_nat (List.length (decimal_digits (num / den)))
  else (1 - leading_zeros num den 0 400)%Z.

(** The digits of Number::toString: [k], starting at 1, is made as small
    as possible such that some [s] of [k] digits has [s * 10^(n-k)]
    converting back to [x]; among several [s], the one closest to [x]. *)
Fixpoint shortest_digits (x : number) (num den : Z) (n : Z) (k : Z)
         (fuel : nat) : Z * Z :=
  match fuel with
  | 0 => (0, n)%Z
  | S fuel' =>
      let q := (n - k)%Z in
      let a := (num * 10 ^ Z.max 0 (- q))%Z in
      let b := (den * 10 ^ Z.max 0 q)%Z in
      let lo := (a / b)%Z in
      let hi := (lo + 1)%Z in
      let lo_ok := sf_eqb (of_decimal false lo q) x in
      let hi_ok := sf_eqb (of_decimal false hi q) x in
      let pick_hi :=
        if (hi =? 10 ^ k)%Z then (1, n + 1)%Z else (hi, n) in
      if lo_ok && hi_ok then
        if (a - lo * b <=? hi * b - a)%Z then (lo, n) else pick_hi
      else if lo_ok then (lo, n)
      else if hi_ok then pick_hi
      else shortest_digits x num den n (k + 1) fuel'
  end.

Definition exponent_suffix (n : Z) : jsstring :=
  str "e" ++ (if (n - 1 <? 0)%Z then str "-" else str "+")
          ++ decimal_digits (Z.abs (n - 1)).

(** Number::toString of the positive finite value [m * 2^e]. *)
Definition positive_toString (m : positive) (e : Z) : jsstring :=
  let '(num, den) := fraction m e in
  let '(s, n) :=
    shortest_digits (S754_finite false m e) num den (magnitude num den)
                    1 17 in
  let ds := decimal_digits s in
  let k := Z.of_nat (List.length ds) in
  if ((k <=? n) && (n <=? 21))%Z then
    ds ++ repeat 48%N (Z.to_nat (n - k))
  else if ((0 <? n) && (n <=? 21))%Z then
    firstn (Z.to_nat n) ds ++ str "." ++ skipn (Z.to_nat n) ds
  else if ((-6 <? n) && (n <=? 0))%Z then
    str "0." ++ repeat 48%N (Z.to_nat (- n)) ++ ds
  else
    match ds with
    | [] => []
    | [d] => d :: exponent_suffix n
    | d :: ds' => d :: str "." ++ ds' ++ exponent_suffix n
    end.

Definition Number_toString (x : number) : jsstring :=
  match x with
  | S754_nan => str "NaN"
  | S754_infinity s => if s then str "-Infinity" else str "Infinity"
  | S754_zero _ => str "0"
  | S754_finite s m e =>
      (if s then str "-" else []) ++ positive_toString m e
  end.

(** The integer [n] for which [n / 100 - m * 2^e] is closest to zero,
    the larger one when two are as close. *)
Definition nearest_hundredths (m : positive) (e : Z) : Z :=
  match e with
  | Zneg k => (200 * Zpos m + 2 ^ Zpos k) / (2 * 2 ^ Zpos k)
  | _ => 100 * (Zpos m * 2 ^ e)
  end.

(** [m * 2^e >= 10^21] *)
Definition at_least_1e21 (m : positive) (e : Z) : bool :=
  match e with
  | Zneg k => (10 ^ 21 * 2 ^ Zpos k <=? Zpos m)%Z
  | _ => (10 ^ 21 <=? Zpos m * 2 ^ e)%Z
  end.

Definition pad_zeros (width : nat) (ds : jsstring) : jsstring :=
  repeat 48%N (width - List.length ds) ++ ds.

Definition two_places (n : Z) : jsstring :=
  let ds := pad_zeros 3 (decimal_digits n) in
  let cut := (List.length ds - 2)%nat in
  firstn cut ds ++ str "." ++ skipn cut ds.

(** [x.toFixed(2)] *)
Definition toFixed2 (x : number) : jsstring :=
  match x with
  | S754_nan => str "NaN"
  | S754_infinity s => if s then str "-Infinity" else str "Infinity"
  | S754_zero _ => str "0.00"
  | S754_finite s m e =>
      (if s then str "-" else []) ++
      (if at_least_1e21 m e then positive_toString m e
       else two_places (nearest_hundredths m e))
  end.

End NumberText.
Import NumberText.

(* ------------------------------------------------------------------ *)
(** ** The dashboard: line items and totals *)

Module Dashboard.

(** The identity of a [<tr>] element. *)
Definition handle := nat.

(** An [<input type="number">]: the two attributes the script sets and
    the current value.  [min] makes the browser mark a smaller value as
    invalid; it changes neither what can be typed nor what [value]
    answers. *)
Record number_input := {
  min : jsstring;
  step : jsstring;
  value : jsstring
}.

(** A valid floating-point number of HTML: an optional [-]; digits, or a
    [.] followed by digits, or both in this order; then optionally [e] or
    [E], an optional sign and digits.  No white space, no leading [+],
    no [.] without digits after it. *)
Definition valid_floating_point_number (s : jsstring) : bool :=
  let s :=
    match s with
    | c :: r => if (c =? 45)%N then r else s
    | [] => s
    end in
  let '(ip, r1) := span_digits s in
  let '(fp, dot, r2) :=
    match r1 with
    | c :: r =>
        if (c =? 46)%N then let '(fp, r') := span_digits r in (fp, true, r')
        else ([], false, r1)
    | [] => ([], false, r1)
    end in
  let mantissa :=
    match ip, fp with
    | [], [] => false
    | _, [] => negb dot
    | _, _ => true
    end in
  let exponent :=
    match r2 with
    | [] => true
    | c :: r =>
        if ((c =? 101) || (c =? 69))%N then
          let r' :=
            match r with
            | d :: r'' => if ((d =? 45) || (d =? 43))%N then r'' else r
            | [] => r
            end in
          match span_digits r' with
          | (_ :: _, []) => true
          | _ => false
          end
        else false
    end in
  mantissa && exponent.

(** The value sanitization of an [<input type="number">]: what is typed or
    assigned reads back through [value] when it is a valid floating-point
    number with a finite value, and as the empty string otherwise. *)
Definition sanitize (text : jsstring) : jsstring :=
  if valid_floating_point_number text && is_finite (parseFloat text)
  then text else [].

(** The text [text] is typed into, or assigned to, a number input. *)
Definition set_value (text : jsstring) (i : number_input) : number_input :=
  {| min := min i; step := step i; value := sanitize text |}.

(** An entry of [itemRows]: the row element, the text of the description
    input, the two number inputs, and the text of the line-total cell. *)
Record item := {
  row : handle;
  descInput : jsstring;
  qtyInput : number_input;
  priceInput : number_input;
  totalTd : jsstring
}.

Record page := {
  itemsTableBody : list handle;      (* children of the table body *)
  itemRows : list item;
  marginInput : jsstring;
  subtotalDisplay : jsstring;
  gstDisplay : jsstring;
  totalDisplay : jsstring;
  clientName : jsstring;
  created : nat                      (* rows created so far *)
}.

(** How a listener ends. *)
Inductive completion := Returned | NotFoundError.

(** [parseFloat(text) || 0] *)
Definition coerce (text : jsstring) : number :=
  (parseFloat text || zero)%num.

(** [qty * price] of one row *)
Definition lineTotal (it : item) : number :=
  (coerce (value (qtyInput it)) * coerce (value (priceInput it)))%num.

(** The local variables of [recalcTotals]. *)
Record totals := {
  subtotal : number;
  subtotalWithMargin : number;
  gst : number;
  total : number
}.

Definition computeTotals (rows : list item) (marginValue : jsstring)
  : totals :=
  let subtotal :=
    fold_left (fun subtotal it =>
                 let qty := coerce (value (qtyInput it)) in
                 let price := coerce (value (priceInput it)) in
                 (subtotal + qty * price)%num) rows zero in
  let margin := coerce marginValue in
  let subtotalWithMargin := (subtotal + subtotal * (margin / lit_100))%num in
  let gst := (subtotalWithMargin * lit_0_1)%num in
  let total := (subtotalWithMargin + gst)%num in
  {| subtotal := subtotal; subtotalWithMargin := subtotalWithMargin;
     gst := gst; total := total |}.

Definition recalcTotals (p : page) : page :=
  let t := computeTotals (itemRows p) (marginInput p) in
  {| itemsTableBody := itemsTableBody p;
     itemRows := itemRows p;
     marginInput := marginInput p;
     subtotalDisplay := toFixed2 (subtotal t);
     gstDisplay := toFixed2 (gst t);
     totalDisplay := toFixed2 (total t);
     clientName := clientName p;
     created := created p |}.

Definition set_rows (body : list handle) (rows : list item) (n : nat)
           (p : page) : page :=
  {| itemsTableBody := body;
     itemRows := rows;
     marginInput := marginInput p;
     subtotalDisplay := subtotalDisplay p;
     gstDisplay := gstDisplay p;
     totalDisplay := totalDisplay p;
     clientName := clientName p;
     created := n |}.

(** [addItemRow]: a new row with an empty description, quantity and price
    ["0"] and line total ["0.00"], appended to the table and to
    [itemRows].  The totals are not recomputed. *)
Definition addItemRow (p : page) : page :=
  let row := created p in
  set_rows (itemsTableBody p ++ [row])
           (itemRows p ++
              [{| row := row; descInput := [];
                  qtyInput := {| min := str "0"; step := str "1";
                                 value := str "0" |};
                  priceInput := {| min := str "0"; step := str "0.01";
                                   value := str "0" |};
                  totalTd := str "0.00" |}])
           (S (created p)) p.

(** [Array.prototype.findIndex] with the test [r.row === row] *)
Fixpoint findIndex (h : handle) (rows : list item) : option nat :=
  match rows with
  | [] => None
  | r :: rows' =>
      if Nat.eqb (row r) h then Some 0
      else option_map S (findIndex h rows')
  end.

(** [splice(idx, 1)] *)
Definition splice1 (idx : nat) (rows : list item) : list item :=
  firstn idx rows ++ skipn (S idx) rows.

(** [removeChild]: the first (and, in a DOM tree, only) occurrence. *)
Fixpoint removeChild (h : handle) (body : list handle) : list handle :=
  match body with
  | [] => []
  | c :: body' => if Nat.eqb c h then body' else c :: removeChild h body'
  end.

(** The click listener of the remove button of row [h].  [removeChild]
    throws when the row is not a child of the table body, which ends the
    listener before anything was changed. *)
Definition remove_click (h : handle) (p : page) : page * completion :=
  if existsb (Nat.eqb h) (itemsTableBody p) then
    let body := removeChild h (itemsTableBody p) in
    let rows :=
      match findIndex h (itemRows p) with
      | Some idx => splice1 idx (itemRows p)
      | None => itemRows p
      end in
    (recalcTotals (set_rows body rows (created p) p), Returned)
  else (p, NotFoundError).

Inductive field := Description | Quantity | Price.

Definition set_field (f : field) (text : jsstring) (it : item) : item :=
  {| row := row it;
     descInput := match f with Description => text | _ => descInput it end;
     qtyInput := match f with
                 | Quantity => set_value text (qtyInput it)
                 | _ => qtyInput it
                 end;
     priceInput := match f with
                   | Price => set_value text (priceInput it)
                   | _ => priceInput it
                   end;
     totalTd := totalTd it |}.

(** [updateRowTotal] of one row, without the final [recalcTotals]. *)
Definition updateRowTotal (it : item) : item :=
  {| row := row it;
     descInput := descInput it;
     qtyInput := qtyInput it;
     priceInput := priceInput it;
     totalTd := toFixed2 (lineTotal it) |}.

(** The user types [text] into an input of row [h].  Quantity and price
    carry the [input] listener [updateRowTotal]; the description has no
    listener. *)
Definition input (h : handle) (f : field) (text : jsstring) (p : page)
  : page :=
  let edit it :=
    if Nat.eqb (row it) h then
      match f with
      | Description => set_field f text it
      | _ => updateRowTotal (set_field f text it)
      end
    else it in
  let p' := set_rows (itemsTableBody p) (map edit (itemRows p))
                     (created p) p in
  match f with
  | Description => p'
  | _ => recalcTotals p'
  end.

(** The user types into the margin field: no listener. *)
Definition input_margin (text : jsstring) (p : page) : page :=
  {| itemsTableBody := itemsTableBody p;
     itemRows := itemRows p;
     marginInput := text;
     subtotalDisplay := subtotalDisplay p;
     gstDisplay := gstDisplay p;
     totalDisplay := totalDisplay p;
     clientName := clientName p;
     created := created p |}.

(** The user types into the client name field: no listener. *)
Definition input_clientName (text : jsstring) (p : page) : page :=
  {| itemsTableBody := itemsTableBody p;
     itemRows := itemRows p;
     marginInput := marginInput p;
     subtotalDisplay := subtotalDisplay p;
     gstDisplay := gstDisplay p;
     totalDisplay := totalDisplay p;
     clientName := text;
     created := created p |}.

(** The page once [initDashboard] has run on an authenticated session:
    [itemRows] starts empty, the table body is taken to be empty in the
    page as delivered, and one blank row is added. *)
Definition initDashboard (html : page) : page :=
  addItemRow (set_rows [] [] 0 html).

(** The pages the listeners can produce. *)
Inductive reachable : page -> Prop :=
| reach_init html : reachable (initDashboard html)
| reach_add p : reachable p -> reachable (addItemRow p)
| reach_remove p h : reachable p -> reachable (fst (remove_click h p))
| reach_input p h f v : reachable p -> reachable (input h f v p)
| reach_margin p v : reachable p -> reachable (input_margin v p)
| reach_client p v : reachable p -> reachable (input_clientName v p)
| reach_calculate p : reachable p -> reachable (recalcTotals p).

(** ** The name of the exported file *)

(** [s.replace(/\s+/g, '_')]: [in_run] tells that the previous code unit
    was white space, already replaced. *)
Fixpoint replace_ws (in_run : bool) (s : jsstring) : jsstring :=
  match s with
  | [] => []
  | c :: s' =>
      if is_white_space c then
        if in_run then replace_ws true s' else 95%N :: replace_ws true s'
      else c :: replace_ws false s'
  end.

(** The argument of [doc.save] in the listener of [generatePdfBtn]. *)
Definition pdf_filename (p : page) : jsstring :=
  let clientName := or_string (clientName p) (str "Client") in
  str "quote-" ++
  or_string (replace_ws false clientName) (str "client") ++ str ".pdf".

End Dashboard.
Import Dashboard.

(* ------------------------------------------------------------------ *)
(** ** Values and JSON *)

Module Json.

(** The values the credential store handles: what [JSON.parse] builds,
    [undefined], and the built-in members that every object inherits from
    [Object.prototype]. *)
Inductive jsvalue :=
| JNull
| JBool (b : bool)
| JNum (x : number)
| JStr (s : jsstring)
| JArr (elements : list jsvalue)
| JObj (properties : list (jsstring * jsvalue))
| JUndefined
| JBuiltin (name : jsstring).

(** ToBoolean *)
Definition truthy_value (v : jsvalue) : bool :=
  match v with
  | JNull | JUndefined => false
  | JBool b => b
  | JNum x => truthy x
  | JStr s => truthy_string s
  | JArr _ | JObj _ | JBuiltin _ => true
  end.

(** [a || b] *)
Definition or_value (a b : jsvalue) : jsvalue :=
  if truthy_value a then a else b.

Fixpoint own (key : jsstring) (ps : list (jsstring * jsvalue))
  : option jsvalue :=
  match ps with
  | [] => None
  | (k, v) :: ps' => if jseqb k key then Some v else own key ps'
  end.

(** The data property [key] is created, or its value replaced where it
    already stands. *)
Fixpoint set_own (key : jsstring) (v : jsvalue)
         (ps : list (jsstring * jsvalue)) : list (jsstring * jsvalue) :=
  match ps with
  | [] => [(key, v)]
  | (k, w) :: ps' =>
      if jseqb k key then (k, v) :: ps' else (k, w) :: set_own key v ps'
  end.

(** The property names of [Object.prototype]. *)
Definition Object_prototype_keys : list jsstring :=
  map str ["constructor"; "hasOwnProperty"; "isPrototypeOf";
           "propertyIsEnumerable"; "toLocaleString"; "toString";
           "valueOf"; "__proto__"; "__defineGetter__";
           "__defineSetter__"; "__lookupGetter__";
           "__lookupSetter__"]%string.

Definition inherited (key : jsstring) : bool :=
  existsb (jseqb key) Object_prototype_keys.

(** [v[key]].  An object answers with its own property, then with the
    member of [Object.prototype] of that name, then with [undefined].
    Arrays and primitive values answer from prototypes of their own,
    which are left out: they answer [undefined] here. *)
Definition get (v : jsvalue) (key : jsstring) : jsvalue :=
  match v with
  | JObj ps =>
      match own key ps with
      | Some w => w
      | None => if inherited key then JBuiltin key else JUndefined
      end
  | _ => JUndefined
  end.

(** [v[key] = w], reached only where [v[key]] was falsy. *)
Definition set (v : jsvalue) (key : jsstring) (w : jsvalue) : jsvalue :=
  match v with
  | JObj ps => JObj (set_own key w ps)
  | _ => v
  end.

(** [a === b] where [b] is a string *)
Definition strict_eq_string (a : jsvalue) (b : jsstring) : bool :=
  match a with
  | JStr s => jseqb s b
  | _ => false
  end.

(** *** [JSON.parse] *)

Inductive parsed (A : Type) :=
| Ok (a : A) (rest : jsstring)
| SyntaxError
| OutOfFuel.
Arguments SyntaxError {A}.
Arguments OutOfFuel {A}.

Definition is_json_ws (c : code_unit) : bool :=
  ((c =? 9) || (c =? 10) || (c =? 13) || (c =? 32))%N.

Fixpoint skip_ws (s : jsstring) : jsstring :=
  match s with
  | c :: s' => if is_json_ws c then skip_ws s' else s
  | [] => []
  end.

Definition hex_value (c : code_unit) : option N :=
  if ((48 <=? c) && (c <=? 57))%N then Some (c - 48)%N
  else if ((97 <=? c) && (c <=? 102))%N then Some (c - 87)%N
  else if ((65 <=? c) && (c <=? 70))%N then Some (c - 55)%N
  else None.

Definition hex4 (a b c d : code_unit) : option code_unit :=
  match hex_value a, hex_value b, hex_value c, hex_value d with
  | Some x, Some y, Some z, Some w =>
      Some (((x * 16 + y) * 16 + z) * 16 + w)%N
  | _, _, _, _ => None
  end.

Definition escaped (c : code_unit) : option code_unit :=
  match c with
  | 34 => Some 34 | 92 => Some 92 | 47 => Some 47
  | 98 => Some 8 | 102 => Some 12 | 110 => Some 10
  | 114 => Some 13 | 116 => Some 9
  | _ => None
  end%N.

(** The characters of a string literal after its opening quote, up to
    the closing one: [34] is the quote, [92] the backslash, [117] is [u]. *)
Fixpoint string_chars (s : jsstring) : option (jsstring * jsstring) :=
  match s with
  | [] => None
  | c :: r =>
      if (c =? 34)%N then Some ([], r)
      else if (c =? 92)%N then
        match r with
        | e :: r' =>
            if (e =? 117)%N then
              match r' with
              | a :: b :: c :: d :: r'' =>
                  match hex4 a b c d, string_chars r'' with
                  | Some u, Some (cs, rest) => Some (u :: cs, rest)
                  | _, _ => None
                  end
              | _ => None
              end
            else
              match escaped e, string_chars r' with
              | Some u, Some (cs, rest) => Some (u :: cs, rest)
              | _, _ => None
              end
        | [] => None
        end
      else if (c <? 32)%N then None
      else match string_chars r with
           | Some (cs, rest) => Some (c :: cs, rest)
           | None => None
           end
  end.

(** A JSON number: [-]? int frac? exp?, where int has no leading zero. *)
Definition json_number (s : jsstring) : option (number * jsstring) :=
  let '(neg, s1) :=
    match s with
    | c :: r => if (c =? 45)%N then (true, r) else (false, s)
    | [] => (false, s)
    end in
  match span_digits s1 with
  | ([], _) => None
  | (0%Z :: _ :: _, _) => None
  | (ip, r1) =>
      let frac :=
        match r1 with
        | c :: r =>
            if (c =? 46)%N then
              match span_digits r with
              | ([], _) => None
              | (fp, r2) => Some (fp, r2)
              end
            else Some ([], r1)
        | [] => Some ([], r1)
        end in
      match frac with
      | None => None
      | Some (fp, r2) =>
          let exp :=
            match r2 with
            | c :: r =>
                if ((c =? 101) || (c =? 69))%N then
                  let '(eneg, r') := take_sign r in
                  match span_digits r' with
                  | ([], _) => None
                  | (ds, r3) => Some (cond_Zopp eneg (digits_value ds), r3)
                  end
                else Some (0%Z, r2)
            | [] => Some (0%Z, r2)
            end in
          match exp with
          | None => None
          | Some (e, r3) =>
              Some (of_decimal neg (digits_value (ip ++ fp))
                               (e - Z.of_nat (List.length fp)), r3)
          end
      end
  end.

Definition literal (word : string) (v : jsvalue) (s : jsstring)
  : parsed jsvalue :=
  match starts_with (str word) s with
  | Some r => Ok v r
  | None => SyntaxError
  end.

(** The first code unit of [s] is [c]; what follows it. *)
Definition after (c : code_unit) (s : jsstring) : option jsstring :=
  match s with
  | d :: r => if cu_eqb d c then Some r else None
  | [] => None
  end.

(** A JSON value at the head of [s], after white space.  The code units
    are 123 and 125 for the braces, 91 and 93 for the brackets, 34 for
    the double quote, 44 for the comma and 58 for the colon. *)
Fixpoint parse_value (fuel : nat) (s : jsstring) : parsed jsvalue :=
  match fuel with
  | 0 => OutOfFuel
  | S fuel' =>
      let s := skip_ws s in
      match s with
      | [] => SyntaxError
      | c :: r =>
          if (c =? 123)%N then
            match after 125%N (skip_ws r) with
            | Some r' => Ok (JObj []) r'
            | None => parse_members fuel' r []
            end
          else if (c =? 91)%N then
            match after 93%N (skip_ws r) with
            | Some r' => Ok (JArr []) r'
            | None => parse_elements fuel' r []
            end
          else if (c =? 34)%N then
            match string_chars r with
            | Some (cs, r') => Ok (JStr cs) r'
            | None => SyntaxError
            end
          else if (c =? 110)%N then literal "null" JNull s
          else if (c =? 116)%N then literal "true" (JBool true) s
          else if (c =? 102)%N then literal "false" (JBool false) s
          else
            match json_number s with
            | Some (x, r') => Ok (JNum x) r'
            | None => SyntaxError
            end
      end
  end

with parse_elements (fuel : nat) (s : jsstring) (acc : list jsvalue)
  : parsed jsvalue :=
  match fuel with
  | 0 => OutOfFuel
  | S fuel' =>
      match parse_value fuel' s with
      | Ok v r =>
          match after 44%N (skip_ws r) with
          | Some r' => parse_elements fuel' r' (acc ++ [v])
          | None =>
              match after 93%N (skip_ws r) with
              | Some r' => Ok (JArr (acc ++ [v])) r'
              | None => SyntaxError
              end
          end
      | SyntaxError => SyntaxError
      | OutOfFuel => OutOfFuel
      end
  end

with parse_members (fuel : nat) (s : jsstring)
       (acc : list (jsstring * jsvalue)) : parsed jsvalue :=
  match fuel with
  | 0 => OutOfFuel
  | S fuel' =>
      match after 34%N (skip_ws s) with
      | None => SyntaxError
      | Some r =>
          match string_chars r with
          | None => SyntaxError
          | Some (key, r1) =>
              match after 58%N (skip_ws r1) with
              | None => SyntaxError
              | Some r2 =>
                  match parse_value fuel' r2 with
                  | Ok v r3 =>
                      match after 44%N (skip_ws r3) with
                      | Some r4 =>
                          parse_members fuel' r4 (set_own key v acc)
                      | None =>
                          match after 125%N (skip_ws r3) with
                          | Some r4 => Ok (JObj (set_own key v acc)) r4
                          | None => SyntaxError
                          end
                      end
                  | SyntaxError => SyntaxError
                  | OutOfFuel => OutOfFuel
                  end
              end
          end
      end
  end.

(** [JSON.parse(text)]: [None] when it throws a SyntaxError. *)
Definition JSON_parse (text : jsstring) : option jsvalue :=
  match parse_value (2 * List.length text + 1) text with
  | Ok v r => match skip_ws r with [] => Some v | _ => None end
  | _ => None
  end.

(** *** [JSON.stringify] *)

Definition hex_digit (n : N) : code_unit :=
  if (n <? 10)%N then (48 + n)%N else (87 + n)%N.

Definition unicode_escape (c : code_unit) : jsstring :=
  [92; 117; hex_digit ((c / 4096) mod 16); hex_digit ((c / 256) mod 16);
   hex_digit ((c / 16) mod 16); hex_digit (c mod 16)]%N.

Definition is_lead (c : code_unit) : bool :=
  ((55296 <=? c) && (c <=? 56319))%N.
Definition is_trail (c : code_unit) : bool :=
  ((56320 <=? c) && (c <=? 57343))%N.

Definition quote_unit (c : code_unit) : jsstring :=
  match c with
  | 8 => [92; 98] | 9 => [92; 116] | 10 => [92; 110]
  | 12 => [92; 102] | 13 => [92; 114]
  | 34 => [92; 34] | 92 => [92; 92]
  | _ => if (c <? 32) || is_trail c then unicode_escape c else [c]
  end%N.

Fixpoint quote_chars (s : jsstring) : jsstring :=
  match s with
  | [] => []
  | c :: s' =>
      if is_lead c then
        match s' with
        | d :: s'' =>
            if is_trail d then c :: d :: quote_chars s''
            else unicode_escape c ++ quote_chars s'
        | [] => unicode_escape c
        end
      else quote_unit c ++ quote_chars s'
  end.

Definition QuoteJSONString (s : jsstring) : jsstring :=
  34%N :: quote_chars s ++ [34%N].

(** An array index: a canonical numeric string below [2^32 - 1].  Such
    keys are enumerated first, in ascending order. *)
Definition array_index (k : jsstring) : option Z :=
  match span_digits k with
  | ([], _) => None
  | (0%Z :: _ :: _, _) => None
  | (ds, []) =>
      let v := digits_value ds in
      if (v <? 2 ^ 32 - 1)%Z then Some v else None
  | _ => None
  end.

Fixpoint insert_index (A : Type) (i : Z) (a : A) (l : list (Z * A))
  : list (Z * A) :=
  match l with
  | [] => [(i, a)]
  | (j, b) :: l' =>
      if (i <? j)%Z then (i, a) :: l else (j, b) :: insert_index i a l'
  end.

Definition own_keys_order (A : Type) (ps : list (jsstring * A))
  : list (jsstring * A) :=
  let indexed :=
    fold_left (fun acc kv =>
                 match array_index (fst kv) with
                 | Some i => insert_index i kv acc
                 | None => acc
                 end) ps [] in
  map snd indexed ++
  filter (fun kv => match array_index (fst kv) with
                    | Some _ => false | None => true end) ps.

Fixpoint join (sep : jsstring) (parts : list jsstring) : jsstring :=
  match parts with
  | [] => []
  | [x] => x
  | x :: parts' => x ++ sep ++ join sep parts'
  end.

(** [None] is [undefined]: what [JSON.stringify] answers for a value
    that has no JSON text. *)
Fixpoint JSON_stringify (v : jsvalue) : option jsstring :=
  match v with
  | JNull => Some (str "null")
  | JBool b => Some (if b then str "true" else str "false")
  | JNum x => Some (if is_finite x then Number_toString x else str "null")
  | JStr s => Some (QuoteJSONString s)
  | JArr vs =>
      let texts :=
        map (fun v => match JSON_stringify v with
                      | Some t => t
                      | None => str "null"
                      end) vs in
      Some (str "[" ++ join (str ",") texts ++ str "]")
  | JObj ps =>
      let texts := map (fun kv => (fst kv, JSON_stringify (snd kv))) ps in
      let members :=
        flat_map (fun kt => match snd kt with
                            | Some t => [QuoteJSONString (fst kt) ++ str ":" ++ t]
                            | None => []
                            end) (own_keys_order texts) in
      Some (str "{" ++ join (str ",") members ++ str "}")
  | JUndefined | JBuiltin _ => None
  end.

End Json.
Import Json.

(* ------------------------------------------------------------------ *)
(** ** The credential store *)

Module Auth.

(** What the model takes from the host: [String.prototype.toLowerCase],
    whose Unicode case mapping is not spelled out here. *)
Class Runtime := { toLowerCase : jsstring -> jsstring }.

(** The two keys of [localStorage] that the script uses. *)
Record storage := {
  users_item : option jsstring;
  currentUser_item : option jsstring
}.

(** An error paragraph: its text and whether its class list holds
    [hidden]. *)
Record message := { textContent : jsstring; hidden : bool }.

Record browser := {
  supabase : bool;              (* a Supabase client was created *)
  localStorage : storage;
  signupError : message;
  loginError : message;
  location : jsstring           (* window.location.href *)
}.

Definition getUsers (ls : storage) : jsvalue :=
  let text :=
    match users_item ls with
    | Some t => t
    | None => str "null"        (* ToString(null) *)
    end in
  match JSON_parse text with
  | Some v => or_value v (JObj [])
  | None => JObj []             (* catch (e) *)
  end.

Definition saveUsers (users : jsvalue) (ls : storage) : storage :=
  {| users_item :=
       Some (match JSON_stringify users with
             | Some t => t
             | None => str "undefined"
             end);
     currentUser_item := currentUser_item ls |}.

Definition set_currentUser (email : jsstring) (ls : storage) : storage :=
  {| users_item := users_item ls; currentUser_item := Some email |}.

Definition hide (m : message) : message :=
  {| textContent := textContent m; hidden := true |}.
Definition show (m : message) : message :=
  {| textContent := textContent m; hidden := false |}.

Definition account (name email password : jsstring) : jsvalue :=
  JObj [(str "name", JStr name); (str "email", JStr email);
        (str "password", JStr password)].

Section Handlers.
Context {R : Runtime}.

(** The key under which an identifier is stored and looked up. *)
Definition normalize (identifier : jsstring) : jsstring :=
  toLowerCase (trim identifier).

(** [registerUser], given the values of the three sign-up inputs.  With
    a Supabase client the request goes to the provider and the local
    store is not touched. *)
Definition registerUser (signupName signupEmail signupPassword : jsstring)
           (b : browser) : browser :=
  let name := trim signupName in
  let email := normalize signupEmail in
  let password := signupPassword in
  if supabase b then
    {| supabase := supabase b; localStorage := localStorage b;
       signupError := hide (signupError b);
       loginError := loginError b; location := location b |}
  else
    let users := getUsers (localStorage b) in
    if truthy_value (get users email) then
      {| supabase := supabase b; localStorage := localStorage b;
         signupError :=
           {| textContent := str "That email is already registered.";
              hidden := false |};
         loginError := loginError b; location := location b |}
    else
      let users := set users email (account name email password) in
      {| supabase := supabase b;
         localStorage :=
           set_currentUser email (saveUsers users (localStorage b));
         signupError := hide (signupError b);
         loginError := loginError b;
         location := str "voice.html" |}.

(** [loginUser], given the values of the two login inputs. *)
Definition loginUser (loginEmail loginPassword : jsstring) (b : browser)
  : browser :=
  let email := normalize loginEmail in
  let password := loginPassword in
  if supabase b then
    {| supabase := supabase b; localStorage := localStorage b;
       signupError := signupError b;
       loginError := hide (loginError b); location := location b |}
  else
    let users := getUsers (localStorage b) in
    let user := get users email in
    if negb (truthy_value user)
       || negb (strict_eq_string (get user (str "password")) password)
    then
      {| supabase := supabase b; localStorage := localStorage b;
         signupError := signupError b;
         loginError := show (loginError b); location := location b |}
    else
      {| supabase := supabase b;
         localStorage := set_currentUser email (localStorage b);
         signupError := signupError b;
         loginError := hide (loginError b);
         location := str "voice.html" |}.

End Handlers.

(** A runtime for closed examples: lower case on the letters A to Z,
    where the host's [toLowerCase] does the same. *)
Definition ascii_lower (c : code_unit) : code_unit :=
  if ((65 <=? c) && (c <=? 90))%N then (c + 32)%N else c.

Definition ascii_runtime : Runtime := {| toLowerCase := map ascii_lower |}.

End Auth.
Import Auth.

(* ------------------------------------------------------------------ *)
(** ** Notions used by the statements *)

Module Notions.

Definition lit_1 : number := of_Z 1.

(** The sum of the first [n] terms, accumulated from the left starting
    at zero. *)
Fixpoint sigma (n : nat) (term : nat -> number) : number :=
  match n with
  | 0 => zero
  | S k => (sigma k term + term k)%num
  end.

Definition blank : item :=
  {| row := 0; descInput := [];
     qtyInput := {| min := []; step := []; value := [] |};
     priceInput := {| min := []; step := []; value := [] |};
     totalTd := [] |}.

(** The contents of a row that a total can depend on. *)
Definition numeric (it : item) : jsstring * jsstring :=
  (value (qtyInput it), value (priceInput it)).

Definition totals_of (p : page) : totals :=
  computeTotals (itemRows p) (marginInput p).





Definition keeps (h : handle) (it : item) : bool := negb (Nat.eqb (row it) h).

(** The table body and [itemRows] list the same rows, each once, and
    every row was created before the next fresh one. *)
Definition page_ok (p : page) : Prop :=
  NoDup (map row (itemRows p))
  /\ itemsTableBody p = map row (itemRows p)
  /\ Forall (fun it => row it < created p) (itemRows p).

(** A page as the HTML delivers it, before [initDashboard]. *)
Definition html0 : page :=
  {| itemsTableBody := []; itemRows := []; marginInput := str "0";
     subtotalDisplay := str "0.00"; gstDisplay := str "0.00";
     totalDisplay := str "0.00"; clientName := []; created := 0 |}.

(** One row "Install tap", 2 at 45.00, margin 10, typed into the first
    row of a fresh dashboard. *)
Definition tap_page : page :=
  input 0 Price (str "45.00")
    (input 0 Quantity (str "2")
       (input 0 Description (str "Install tap")
          (input_margin (str "10") (initDashboard html0)))).

(** The same contents after another history: a second row is added, the
    first one removed, and the survivor filled in. *)
Definition tap_page_later : page :=
  input 1 Quantity (str "2")
    (input 1 Price (str "45.00")
       (fst (remove_click 0 (addItemRow (initDashboard html0))))).

Definition one_row (desc qty price : string) : list item :=
  [{| row := 0; descInput := str desc;
      qtyInput := {| min := str "0"; step := str "1"; value := str qty |};
      priceInput := {| min := str "0"; step := str "0.01";
                       value := str price |};
      totalTd := str "0.00" |}].

(** *** The values entered *)

(** A decimal numeral as it is typed: a sign, the digits before the point
    and the digits after it. *)
Record numeral := {
  negative : bool;
  whole : Decimal.uint;
  decimals : Decimal.uint
}.

Definition digits_text (d : Decimal.uint) : jsstring :=
  str (NilEmpty.string_of_uint d).

(** The point and the digits after it, when there are any. *)
Definition fraction_text (f : Decimal.uint) : jsstring :=
  match f with
  | Decimal.Nil => []
  | _ => str "." ++ digits_text f
  end.

(** The text of a numeral. *)
Definition numeral_text (n : numeral) : jsstring :=
  (if negative n then str "-" else [])
  ++ digits_text (whole n) ++ fraction_text (decimals n).

(** The natural number that [acc] followed by the digits [d] writes. *)
Fixpoint digits_number (acc : Z) (d : Decimal.uint) : Z :=
  match d with
  | Decimal.Nil => acc
  | Decimal.D0 d => digits_number (10 * acc) d
  | Decimal.D1 d => digits_number (10 * acc + 1) d
  | Decimal.D2 d => digits_number (10 * acc + 2) d
  | Decimal.D3 d => digits_number (10 * acc + 3) d
  | Decimal.D4 d => digits_number (10 * acc + 4) d
  | Decimal.D5 d => digits_number (10 * acc + 5) d
  | Decimal.D6 d => digits_number (10 * acc + 6) d
  | Decimal.D7 d => digits_number (10 * acc + 7) d
  | Decimal.D8 d => digits_number (10 * acc + 8) d
  | Decimal.D9 d => digits_number (10 * acc + 9) d
  end.

(** The number a numeral stands for: the double nearest to it, zero
    having no sign. *)
Definition numeral_number (n : numeral) : number :=
  match of_decimal (negative n)
                   (digits_number (digits_number 0 (whole n)) (decimals n))
                   (- Z.of_nat (Decimal.nb_digits (decimals n))) with
  | S754_zero _ => zero
  | x => x
  end.

(** What the quantity and price inputs of a row hold when the two
    numerals were typed. *)
Definition entry_texts (e : numeral * numeral) : jsstring * jsstring :=
  (numeral_text (fst e), numeral_text (snd e)).

(** The sum, in order and from zero, of quantity times price. *)
Definition entries_sum (entries : list (numeral * numeral)) : number :=
  fold_left (fun s e =>
               (s + numeral_number (fst e) * numeral_number (snd e))%num)
            entries zero.

(** *** The credential store *)

(** What a parser owes: it read something, or it refused; it did not
    stop for want of fuel. *)
Definition progresses (s : jsstring) (res : parsed jsvalue) : Prop :=
  match res with
  | Ok _ r => List.length r < List.length s
  | SyntaxError => True
  | OutOfFuel => False
  end.

(** Registration was refused: the sign-up error is shown. *)
Definition duplicate_account (b : browser) : Prop :=
  signupError b
  = {| textContent := str "That email is already registered.";
       hidden := false |}.

(** An account is stored under [key]. *)
Definition registered (key : jsstring) (ps : list (jsstring * jsvalue))
  : Prop :=
  exists acct, In (key, acct) ps.

(** Every entry of the map is an account object. *)
Definition account_map (ps : list (jsstring * jsvalue)) : Prop :=
  Forall (fun kv => exists fields, snd kv = JObj fields) ps.

(** The account stored under [key] has the secret [password]. *)
Definition has_account (key password : jsstring)
           (ps : list (jsstring * jsvalue)) : Prop :=
  exists fields,
    own key ps = Some (JObj fields)
    /\ own (str "password") fields = Some (JStr password).

(** The two ways [loginUser] ends without a provider. *)
Definition login_ok (key : jsstring) (b : browser) : browser :=
  {| supabase := supabase b;
     localStorage := set_currentUser key (localStorage b);
     signupError := signupError b;
     loginError := hide (loginError b);
     location := str "voice.html" |}.

Definition login_failed (b : browser) : browser :=
  {| supabase := supabase b; localStorage := localStorage b;
     signupError := signupError b;
     loginError := show (loginError b); location := location b |}.

(** Nothing is stored under [users], or what is stored is not JSON. *)
Definition unreadable (ls : storage) : Prop :=
  users_item ls = None
  \/ exists t, users_item ls = Some t /\ JSON_parse t = None.

Definition with_users (t : option jsstring) (b : browser) : browser :=
  {| supabase := supabase b;
     localStorage := {| users_item := t;
                        currentUser_item :=
                          currentUser_item (localStorage b) |};
     signupError := signupError b; loginError := loginError b;
     location := location b |}.

(** What can be observed of a browser: the accounts, the session, the
    two messages and the address. *)
Definition outcome (b : browser) :=
  (getUsers (localStorage b), currentUser_item (localStorage b),
   signupError b, loginError b, location b).

(** The code unit of [@]. *)
Definition at_sign : code_unit := 64%N.

(** A browser that never saw the application. *)
Definition new_browser : browser :=
  {| supabase := false;
     localStorage := {| users_item := None; currentUser_item := None |};
     signupError := {| textContent := []; hidden := true |};
     loginError := {| textContent := []; hidden := true |};
     location := str "signup.html" |}.

(** The same browser after Alice registered. *)
Definition alice_browser : browser :=
  registerUser (R := ascii_runtime)
    (str "Alice") (str " A@x.COM ") (str "pw1") new_browser.

Definition alice_accounts : list (jsstring * jsvalue) :=
  [(str "a@x.com", account (str "Alice") (str "a@x.com") (str "pw1"))].

(** A browser whose [users] entry was damaged. *)
Definition damaged_browser : browser :=
  with_users (Some (str "{oops")) alice_browser.

End Notions.
Import Notions.

(* ------------------------------------------------------------------ *)
(** ** The session: logging out and entering the dashboard *)

Module Session.

(** [logoutUser], once its body has run: the session pointer is removed
    and the login page opened.  With a provider this happens after the
    sign-out has settled, whether it succeeded or threw; what the provider
    does is not part of the browser. *)
Definition logoutUser (b : browser) : browser :=
  {| supabase := supabase b;
     localStorage := {| users_item := users_item (localStorage b);
                        currentUser_item := None |};
     signupError := signupError b; loginError := loginError b;
     location := str "login.html" |}.

(** How the guard at the head of [initDashboard] ends. *)
Inductive entry :=
| Entered (p : page)
| SentToLogin.

(** The browser after a redirect to the login page. *)
Definition to_login (b : browser) : browser :=
  {| supabase := supabase b; localStorage := localStorage b;
     signupError := signupError b; loginError := loginError b;
     location := str "login.html" |}.

(** [initDashboard] with its guard.  [session] tells whether the provider,
    when there is one, answered with a session (no session and a thrown
    error both redirect); without a provider a missing or empty
    [currentUser] sends the visitor to the login page before anything is
    set up. *)
Definition initDashboard_guarded (html : page) (session : bool) (b : browser)
  : browser * entry :=
  if supabase b then
    if session then (b, Entered (initDashboard html))
    else (to_login b, SentToLogin)
  else
    match currentUser_item (localStorage b) with
    | Some (_ :: _) => (b, Entered (initDashboard html))
    | _ => (to_login b, SentToLogin)
    end.

(** [users[currentEmail] || { name: 'Tradie' }], the first lines of the
    three export listeners. *)
Definition user (ls : storage) : jsvalue :=
  let users := getUsers ls in
  let currentEmail :=
    match currentUser_item ls with
    | Some u => u
    | None => str "null"        (* the property key of [null] *)
    end in
  or_value (get users currentEmail)
           (JObj [(str "name", JStr (str "Tradie"))]).

End Session.
Import Session.

(* ------------------------------------------------------------------ *)
(** ** Voice input *)

Module Voice.

(** The listener [recognition.onresult]: the new value of the job
    description, from the transcript and the present value.  The status
    label it also writes is not part of the page modelled here. *)
Definition onresult (transcript jobDescription : jsstring) : jsstring :=
  trim (jobDescription ++ str " " ++ transcript).

End Voice.
Import Voice.

(* ------------------------------------------------------------------ *)
(** ** The e-mail draft *)

Module Mail.

(** The code units that [encodeURIComponent] leaves as they are: ASCII
    letters, decimal digits and [- _ . ! ~ * ' ( )]. *)
Definition is_unreserved (c : code_unit) : bool :=
  ((65 <=? c) && (c <=? 90) || (97 <=? c) && (c <=? 122)
   || (48 <=? c) && (c <=? 57)
   || (c =? 45) || (c =? 95) || (c =? 46) || (c =? 33) || (c =? 126)
   || (c =? 42) || (c =? 39) || (c =? 40) || (c =? 41))%N.

(** A hexadecimal digit, in upper case. *)
Definition upper_hex (n : N) : code_unit :=
  if (n <? 10)%N then (48 + n)%N else (55 + n)%N.

(** An octet as [%XX]. *)
Definition percent (octet : N) : jsstring :=
  [37%N; upper_hex (octet / 16); upper_hex (octet mod 16)].

(** The UTF-8 octets of a code point. *)
Definition utf8 (cp : N) : list N :=
  (if cp <? 128 then [cp]
   else if cp <? 2048 then [192 + cp / 64; 128 + cp mod 64]
   else if cp <? 65536 then
     [224 + cp / 4096; 128 + (cp / 64) mod 64; 128 + cp mod 64]
   else
     [240 + cp / 262144; 128 + (cp / 4096) mod 64;
      128 + (cp / 64) mod 64; 128 + cp mod 64])%N.

(** The code point of a surrogate pair. *)
Definition code_point (lead trail : code_unit) : N :=
  ((lead - 55296) * 1024 + (trail - 56320) + 65536)%N.

(** The escape of a code point: its octets, each as [%XX]. *)
Definition escape (cp : N) : jsstring := List.concat (map percent (utf8 cp)).

(** [encodeURIComponent]; [None] is the [URIError] thrown at a surrogate
    without its partner. *)
Fixpoint encodeURIComponent (s : jsstring) : option jsstring :=
  match s with
  | [] => Some []
  | c :: r =>
      if is_unreserved c then option_map (cons c) (encodeURIComponent r)
      else if is_lead c then
        match r with
        | d :: r' =>
            if is_trail d
            then option_map (app (escape (code_point c d)))
                            (encodeURIComponent r')
            else None
        | [] => None
        end
      else if is_trail c then None
      else option_map (app (escape c)) (encodeURIComponent r)
  end.

(** A line feed. *)
Definition nl : jsstring := [10%N].

(** The line of one row in the body of the message. *)
Definition item_line (it : item) : jsstring :=
  let desc := or_string (descInput it) (str "item") in
  let qty := coerce (value (qtyInput it)) in
  let price := coerce (value (priceInput it)) in
  let total := (qty * price)%num in
  desc ++ [32; 8211; 32]%N ++ str "Qty: " ++ Number_toString qty
       ++ str ", Unit $" ++ toFixed2 price
       ++ str ", Total $" ++ toFixed2 total ++ nl.

(** The body of the message, from the job description and the page. *)
Definition email_body (jobDescription : jsstring) (p : page) : jsstring :=
  let body := str "Hello," ++ nl ++ nl
              ++ str "Please find your quote below:" ++ nl ++ nl in
  let body := body ++ str "Job description: " ++ jobDescription
                   ++ nl ++ nl in
  let body := fold_left (fun body it => body ++ item_line it)
                        (itemRows p) body in
  let body := body ++ nl ++ str "Subtotal: $" ++ subtotalDisplay p ++ nl in
  let body := body ++ str "Margin (" ++ marginInput p
                   ++ str "%): included" ++ nl in
  let body := body ++ str "GST (10%): $" ++ gstDisplay p ++ nl in
  let body := body ++ str "Total: $" ++ totalDisplay p ++ nl ++ nl in
  body ++ str "Thank you for your business!" ++ nl.

(** The address that the listener builds. *)
Definition mailto (clientEmail subject body : jsstring) : option jsstring :=
  match encodeURIComponent clientEmail with
  | None => None
  | Some to =>
      match encodeURIComponent subject with
      | None => None
      | Some subject =>
          match encodeURIComponent body with
          | None => None
          | Some body =>
              Some (str "mailto:" ++ to ++ str "?subject=" ++ subject
                        ++ str "&body=" ++ body)
          end
      end
  end.

(** How the listener of [sendEmailBtn] ends. *)
Inductive mail :=
| MailTo (href : jsstring)      (* assigned to [window.location.href] *)
| URIError.

(** The click listener of [sendEmailBtn], given the value of the client
    e-mail field, the text of [user.name] and the job description. *)
Definition sendEmail_click (clientEmail userName jobDescription : jsstring)
           (p : page) : page * mail :=
  let p := recalcTotals p in
  let clientEmail := trim clientEmail in
  let subject := str "Quote from " ++ userName in
  let body := email_body jobDescription p in
  (p, match mailto clientEmail subject body with
      | Some href => MailTo href
      | None => URIError
      end).

End Mail.
Import Mail.

(* ------------------------------------------------------------------ *)
(** ** Notions used by the further statements *)

Module MoreNotions.

(** *** Texts *)

(** A code unit is a 16-bit value; a JavaScript string holds nothing
    else. *)
Definition valid_unit (c : code_unit) : Prop := (c < 65536)%N.
Definition valid_string (s : jsstring) : Prop := Forall valid_unit s.

(** White space only. *)
Definition white (s : jsstring) : Prop :=
  Forall (fun c => is_white_space c = true) s.

(** No white space at the head. *)
Definition starts_bare (s : jsstring) : Prop :=
  match s with
  | c :: _ => is_white_space c = false
  | [] => True
  end.

(** No white space at either end. *)
Definition bare (s : jsstring) : Prop :=
  starts_bare s /\ starts_bare (rev s).

(** [String.prototype.isWellFormed]: every surrogate has its partner. *)
Fixpoint well_formed (s : jsstring) : bool :=
  match s with
  | [] => true
  | c :: r =>
      if is_lead c then
        match r with
        | d :: r' => is_trail d && well_formed r'
        | [] => false
        end
      else negb (is_trail c) && well_formed r
  end.

(** Neither half of a surrogate pair. *)
Definition ordinary (c : code_unit) : Prop :=
  is_lead c = false /\ is_trail c = false.

(** The text does not begin with the second half of a surrogate pair. *)
Definition starts_no_trail (s : jsstring) : Prop :=
  match s with
  | d :: _ => is_trail d = false
  | [] => True
  end.

(** An ASCII code unit. *)
Definition seven_bit (c : code_unit) : Prop := (c < 128)%N.

(** ASCII only. *)
Definition plain_text (s : jsstring) : Prop := Forall seven_bit s.

(** The host lowers ASCII text as ECMAScript does: [A] to [Z] become [a]
    to [z], and nothing else changes. *)
Definition lowers_ascii (R : Runtime) : Prop :=
  forall s, plain_text s -> toLowerCase s = map ascii_lower s.

(** What may stand in a component of an address: an unreserved code unit
    or the percent sign of an escape.  In particular none of
    [? & = # / @ :], no white space and no line break. *)
Definition uri_safe (c : code_unit) : bool :=
  is_unreserved c || (c =? 37)%N.

(** *** The store of accounts *)

(** [JSON.parse] reads the text [t] back as [v], whatever follows it. *)
Definition reads_back (v : jsvalue) (t : jsstring) : Prop :=
  forall tail, exists f, parse_value f (t ++ tail) = Ok v tail.

(** A member of an object as [JSON.stringify] writes it. *)
Definition member_text (kv : jsstring * jsvalue) : jsstring :=
  QuoteJSONString (fst kv) ++ str ":"
  ++ match JSON_stringify (snd kv) with Some t => t | None => [] end.

(** A key that is no array index: [JSON.stringify] writes such keys in
    the order of their creation. *)
Definition plain_key (k : jsstring) : Prop :=
  valid_string k /\ array_index k = None.

(** [JSON.stringify] writes [v], and [JSON.parse] reads what was written
    back as [v]. *)
Definition writable (v : jsvalue) : Prop :=
  exists t, JSON_stringify v = Some t /\ reads_back v t.

(** An account object as [registerUser] makes it. *)
Definition valid_account (v : jsvalue) : Prop :=
  exists n e p, v = account n e p
                /\ valid_string n /\ valid_string e /\ valid_string p.

(** A map of accounts as registrations build it: distinct keys, each with
    an [@] in it, each holding an account. *)
Definition stored_accounts (ps : list (jsstring * jsvalue)) : Prop :=
  NoDup (map fst ps)
  /\ Forall (fun kv => valid_string (fst kv) /\ In at_sign (fst kv)
                       /\ valid_account (snd kv)) ps.

(** The browsers a visitor can reach without a provider, from one whose
    [users] entry is missing or unreadable, registering only identifiers
    whose stored form is well-formed text with an [@] in it. *)
Inductive visited {R : Runtime} : browser -> Prop :=
| visit_start b :
    supabase b = false -> unreadable (localStorage b) -> visited b
| visit_register b name id pw :
    visited b ->
    valid_string name -> valid_string pw ->
    valid_string (normalize id) -> In at_sign (normalize id) ->
    visited (registerUser name id pw b)
| visit_login b id pw : visited b -> visited (loginUser id pw b)
| visit_logout b : visited b -> visited (logoutUser b).

(** A registration that the store of accounts [ps] of [b] will accept:
    no provider, well-formed texts, an identifier with an [@] that is not
    yet a key. *)
Definition fresh_registration {R : Runtime} (b : browser)
           (ps : list (jsstring * jsvalue)) (name id pw : jsstring) : Prop :=
  supabase b = false
  /\ getUsers (localStorage b) = JObj ps
  /\ stored_accounts ps
  /\ valid_string name /\ valid_string pw
  /\ valid_string (normalize id) /\ In at_sign (normalize id)
  /\ own (normalize id) ps = None.

(** Bob registers in the browser in which Alice did. *)
Definition bob_registers : Prop :=
  fresh_registration (R := ascii_runtime) alice_browser alice_accounts
                     (str "Bob") (str " Bob@X.com") (str "pw2").

(** A browser in which somebody registered with a blank identifier. *)
Definition blank_browser : browser :=
  registerUser (R := ascii_runtime) (str "Nobody") (str "  ") (str "pw")
               new_browser.

(** *** The ledger and the message *)


(** The three totals shown, from the subtotal and the margin text. *)
Definition shown (sub : number) (m : jsstring) : list jsstring :=
  let swm := (sub + sub * (coerce m / lit_100))%num in
  let gst := (swm * lit_0_1)%num in
  [toFixed2 sub; toFixed2 gst; toFixed2 (swm + gst)%num].

(** The texts shown for the totals are plain. *)
Definition plain_displays (p : page) : Prop :=
  plain_text (subtotalDisplay p) /\ plain_text (gstDisplay p)
  /\ plain_text (totalDisplay p).

(** No text that goes into the message holds a surrogate without its
    partner. *)
Definition mail_texts_well_formed (clientEmail userName jobDescription
                                   : jsstring) (p : page) : bool :=
  well_formed clientEmail && well_formed userName
  && well_formed jobDescription && well_formed (marginInput p)
  && forallb (fun it => well_formed (descInput it)) (itemRows p).

(** The address of a message, or the empty text. *)
Definition href_of (m : mail) : jsstring :=
  match m with
  | MailTo href => href
  | URIError => []
  end.

End MoreNotions.
Import MoreNotions.

(* ------------------------------------------------------------------ *)
(** ** Properties of the totals engine *)

Section TotalsFacts.






Lemma subtotal_fold (rows : list item) (m : jsstring) :
  subtotal (computeTotals rows m)
  = fold_left (fun acc it => (acc + lineTotal it)%num) rows zero.
Proof. reflexivity. Qed.

(** The totals are a function of the line totals and the margin. *)
Lemma computeTotals_ext (rows rows' : list item) (m m' : jsstring) :
  map lineTotal rows = map lineTotal rows' ->
  coerce m = coerce m' ->
  computeTotals rows m = computeTotals rows' m'.
Proof.
  intros Hl Hm.
  assert (Hs : forall a,
             fold_left (fun acc it => (acc + lineTotal it)%num) rows a
             = fold_left (fun acc it => (acc + lineTotal it)%num) rows' a).
  { revert rows' Hl. induction rows as [|r rows IH]; intros [|r' rows'] Hl a;
      simpl in *; try discriminate; [reflexivity|].
    injection Hl as Hr Hl. rewrite Hr. now apply IH. }
  unfold computeTotals. fold (lineTotal).
  change (fold_left _ rows zero)
    with (fold_left (fun acc it => (acc + lineTotal it)%num) rows zero).
  change (fold_left _ rows' zero)
    with (fold_left (fun acc it => (acc + lineTotal it)%num) rows' zero).
  rewrite Hs, Hm. reflexivity.
Qed.

Lemma sigma_ext (n : nat) (f g : nat -> number) :
  (forall i, i < n -> f i = g i) -> sigma n f = sigma n g.
Proof.
  induction n as [|n IH]; intros H; simpl; [reflexivity|].
  rewrite IH by (intros i Hi; apply H; lia).
  rewrite (H n) by lia. reflexivity.
Qed.

Lemma fold_is_sigma (rows : list item) :
  fold_left (fun acc it => (acc + lineTotal it)%num) rows zero
  = sigma (List.length rows) (fun i => lineTotal (nth i rows blank)).
Proof.
  induction rows as [|x rows IH] using rev_ind; [reflexivity|].
  rewrite fold_left_app, length_app, Nat.add_comm. simpl.
  rewrite IH. f_equal.
  - apply sigma_ext. intros i Hi. now rewrite app_nth1.
  - now rewrite nth_middle.
Qed.

Lemma lineTotal_numeric (a b : item) :
  numeric a = numeric b -> lineTotal a = lineTotal b.
Proof.
  unfold numeric, lineTotal. intros H. injection H as -> ->. reflexivity.
Qed.

Lemma map_lineTotal_numeric (l l' : list item) :
  map numeric l = map numeric l' -> map lineTotal l = map lineTotal l'.
Proof.
  revert l'. induction l as [|a l IH]; intros [|b l'] H; cbn [map] in *;
    try discriminate; [reflexivity|].
  assert (Ha : numeric a = numeric b) by congruence.
  assert (Hl : map numeric l = map numeric l') by congruence.
  f_equal; [now apply lineTotal_numeric | now apply IH].
Qed.

(** *** Converting decimals *)

Lemma shr_1_nonneg (mrs : shr_record) :
  (0 <= shr_m mrs)%Z -> (0 <= shr_m (shr_1 mrs))%Z.
Proof.
  destruct mrs as [m r s]. destruct m as [|p|p]; simpl; intros H;
    [lia | destruct p; simpl; lia | lia].
Qed.

Lemma iter_shr_1_nonneg (p : positive) (mrs : shr_record) :
  (0 <= shr_m mrs)%Z -> (0 <= shr_m (iter_pos shr_1 p mrs))%Z.
Proof.
  revert mrs. induction p as [p IH|p IH|]; intros mrs H; simpl.
  - apply IH, IH. now apply shr_1_nonneg.
  - now apply IH, IH.
  - now apply shr_1_nonneg.
Qed.

Lemma shr_fexp_nonneg (m e : Z) (l : SpecFloat.location) :
  (0 <= m)%Z -> (0 <= shr_m (fst (shr_fexp prec emax m e l)))%Z.
Proof.
  intros H. unfold shr_fexp, shr.
  assert (H0 : (0 <= shr_m (shr_record_of_loc m l))%Z)
    by (destruct l as [|[]]; exact H).
  destruct (_ - e)%Z; simpl; try exact H0. now apply iter_shr_1_nonneg.
Qed.

Lemma round_nearest_even_nonneg (m : Z) (l : SpecFloat.location) :
  (0 <= m)%Z -> (0 <= round_nearest_even m l)%Z.
Proof.
  intros H. unfold round_nearest_even.
  destruct l as [|[]]; try destruct (Z.even m); lia.
Qed.

Lemma binary_round_aux_not_nan (sx : bool) (mx ex : Z) (lx : SpecFloat.location) :
  (0 <= mx)%Z -> is_nan (binary_round_aux prec emax sx mx ex lx) = false.
Proof.
  intros H. unfold binary_round_aux.
  pose proof (shr_fexp_nonneg ex lx H) as H1.
  destruct (shr_fexp prec emax mx ex lx) as [mrs' e']. simpl in H1.
  pose proof (shr_fexp_nonneg e' loc_Exact
                (round_nearest_even_nonneg (loc_of_shr_record mrs') H1)) as H2.
  destruct (shr_fexp prec emax _ e' loc_Exact) as [mrs'' e'']. simpl in H2.
  destruct (shr_m mrs'') as [|m|m]; [reflexivity | | lia].
  destruct (_ <=? _)%Z; reflexivity.
Qed.

(** Converting a decimal never gives [NaN]. *)
Lemma of_decimal_not_nan (neg : bool) (d e : Z) :
  is_nan (of_decimal neg d e) = false.
Proof.
  unfold of_decimal. destruct d as [|p|p]; try reflexivity.
  destruct e as [|k|k].
  - unfold binary_normalize.
    destruct (cond_Zopp neg _) as [|m|m]; try reflexivity;
      unfold binary_round; destruct (shl_align _ _ _);
      now apply binary_round_aux_not_nan.
  - unfold binary_normalize.
    destruct (cond_Zopp neg _) as [|m|m]; try reflexivity;
      unfold binary_round; destruct (shl_align _ _ _);
      now apply binary_round_aux_not_nan.
  - unfold SFdiv_core_binary.
    set (m' := match _ with Zpos _ => _ | Z0 => _ | Zneg _ => _ end).
    assert (Hm : (0 <= m')%Z).
    { subst m'. destruct (_ - _ - _)%Z; try lia.
      apply Z.shiftl_nonneg. lia. }
    pose proof (Z_div_mod m' (Zpos (10 ^ k)) ltac:(lia)) as Hd.
    destruct (Z.div_eucl m' (Zpos (10 ^ k))) as [q r].
    apply binary_round_aux_not_nan. nia.
Qed.

(** *** Numerals as they are typed *)

Lemma digits_text_cons (c : ascii) (t : string) :
  str (String c t) = N_of_ascii c :: str t.
Proof. reflexivity. Qed.

Lemma span_digits_cons (c : code_unit) (s : jsstring) :
  span_digits (c :: s)
  = if is_digit c then
      let '(ds, r) := span_digits s in (Z.of_N (c - 48) :: ds, r)
    else ([], c :: s).
Proof. reflexivity. Qed.

Lemma span_digits_text (d : Decimal.uint) (r : jsstring) :
  match r with c :: _ => is_digit c = false | [] => True end ->
  exists ds,
    span_digits (digits_text d ++ r) = (ds, r)
    /\ List.length ds = Decimal.nb_digits d
    /\ (forall acc, fold_left (fun a x => 10 * a + x)%Z ds acc
                    = digits_number acc d).
Proof.
  intros Hr. unfold digits_text.
  induction d as [|d (ds & E & Hl & Hf)|d (ds & E & Hl & Hf)
                  |d (ds & E & Hl & Hf)|d (ds & E & Hl & Hf)
                  |d (ds & E & Hl & Hf)|d (ds & E & Hl & Hf)
                  |d (ds & E & Hl & Hf)|d (ds & E & Hl & Hf)
                  |d (ds & E & Hl & Hf)|d (ds & E & Hl & Hf)].
  1: { exists []. split; [|split; reflexivity].
       destruct r as [|c r]; [reflexivity | simpl; now rewrite Hr]. }
  all: simpl NilEmpty.string_of_uint; rewrite digits_text_cons;
    rewrite <- app_comm_cons, span_digits_cons;
    change (is_digit (N_of_ascii _)) with true; cbv iota;
    match goal with
    | |- context [span_digits ?x] =>
        replace (span_digits x) with (ds, r) by (symmetry; exact E)
    end;
    eexists; (split; [reflexivity|]);
    (split; [simpl; now rewrite Hl|]);
    intros acc; cbn [fold_left digits_number]; rewrite Hf; f_equal.
  all: match goal with
       | |- context [Z.of_N ?n] =>
           let v := eval vm_compute in (Z.of_N n) in
           change (Z.of_N n) with v
       end; lia.
Qed.

Lemma digit_facts (c : code_unit) :
  is_digit c = true ->
  is_white_space c = false /\ (c =? 43)%N = false /\ (c =? 45)%N = false
  /\ (c =? 46)%N = false /\ cu_eqb 73%N c = false.
Proof.
  unfold is_digit, is_white_space, cu_eqb.
  rewrite andb_true_iff, !N.leb_le. intros [H1 H2].
  repeat split;
    repeat (rewrite ?orb_false_iff, ?andb_false_iff, ?N.eqb_neq, ?N.leb_gt);
    try lia.
Qed.

Lemma digits_text_head (d : Decimal.uint) :
  match digits_text d with
  | [] => d = Decimal.Nil
  | c :: _ => is_digit c = true
  end.
Proof. destruct d; reflexivity. Qed.

(** The head of an unsigned numeral is a digit or the point. *)
Lemma unsigned_head (s : jsstring) :
  match s with
  | [] => True
  | c :: _ => is_digit c = true \/ c = 46%N
  end ->
  trim_start s = s /\ take_sign s = (false, s)
  /\ starts_with (str "Infinity") s = None.
Proof.
  destruct s as [|c s]; [intros _; repeat split|].
  intros [H| ->]; [|repeat split].
  destruct (digit_facts c H) as (Hw & H43 & H45 & _ & H73).
  unfold take_sign. cbn [trim_start]. rewrite Hw, H43, H45.
  repeat split. change (str "Infinity") with (73%N :: str "nfinity").
  cbn [starts_with]. now rewrite H73.
Qed.

Lemma numeral_tail_head (f : Decimal.uint) :
  match fraction_text f with
  | c :: _ => is_digit c = false
  | [] => True
  end.
Proof. destruct f; simpl; auto. Qed.

Lemma fraction_scan (f : Decimal.uint) (fp : list Z) (tail : jsstring) :
  tail = fraction_text f ->
  span_digits (digits_text f) = (fp, []) ->
  match tail with
  | c :: r => if (c =? 46)%N then span_digits r else ([], tail)
  | [] => ([], tail)
  end = (fp, []).
Proof. intros -> E. destruct f; exact E. Qed.

Lemma list_match (A B : Type) (l l' : list A) (a x : B) :
  match l, l' with [], [] => a | _, _ => x end
  = match List.length l, List.length l' with 0, 0 => a | _, _ => x end.
Proof. destruct l, l'; reflexivity. Qed.

Lemma digits_match (B : Type) (w f : Decimal.uint) (a x : B) :
  match w, f with Decimal.Nil, Decimal.Nil => a | _, _ => x end
  = match Decimal.nb_digits w, Decimal.nb_digits f with
    | 0, 0 => a
    | _, _ => x
    end.
Proof. destruct w, f; reflexivity. Qed.

(** What [parseFloat] makes of digits with an optional fraction, after
    the sign. *)
Lemma parse_unsigned (neg : bool) (w f : Decimal.uint) (s : jsstring) :
  s = digits_text w
      ++ fraction_text f ->
  (let '(ip, r1) := span_digits s in
   let '(fp, r2) :=
     match r1 with
     | c :: r => if (c =? 46)%N then span_digits r else ([], r1)
     | [] => ([], r1)
     end in
   match ip, fp with
   | [], [] => NaN
   | _, _ =>
       of_decimal neg (digits_value (ip ++ fp))
                  (exponent_part r2 - Z.of_nat (List.length fp))
   end)
  = match w, f with
    | Decimal.Nil, Decimal.Nil => NaN
    | _, _ =>
        of_decimal neg (digits_number (digits_number 0 w) f)
                   (- Z.of_nat (Decimal.nb_digits f))
    end.
Proof.
  intros Hs.
  destruct (span_digits_text w _ (numeral_tail_head f))
    as (ip & Ei & Li & Fi).
  destruct (span_digits_text f [] I) as (fp & Ef & Lf & Ff).
  rewrite app_nil_r in Ef.
  assert (Ev : digits_value (ip ++ fp)
               = digits_number (digits_number 0 w) f).
  { unfold digits_value. now rewrite fold_left_app, Fi, Ff. }
  rewrite <- Hs in Ei. rewrite Ei. cbv beta iota.
  match goal with
  | |- (let '(_, _) := ?Q in _) = _ =>
      replace Q with (fp, @nil code_unit)
        by (symmetry; exact (fraction_scan f eq_refl Ef))
  end.
  cbv beta iota.
  rewrite list_match, digits_match, Ev, Li, Lf.
  destruct (Decimal.nb_digits w), (Decimal.nb_digits f);
    try reflexivity; simpl exponent_part; f_equal.
Qed.

Lemma body_head (w f : Decimal.uint) :
  match digits_text w
        ++ fraction_text f with
  | [] => True
  | c :: _ => is_digit c = true \/ c = 46%N
  end.
Proof. destruct w; simpl; auto; destruct f; simpl; auto. Qed.

(** [parseFloat] reads a numeral as the double nearest to it. *)
Lemma parseFloat_numeral (n : numeral) :
  parseFloat (numeral_text n)
  = match whole n, decimals n with
    | Decimal.Nil, Decimal.Nil => NaN
    | _, _ =>
        of_decimal (negative n)
                   (digits_number (digits_number 0 (whole n)) (decimals n))
                   (- Z.of_nat (Decimal.nb_digits (decimals n)))
    end.
Proof.
  destruct n as [neg w f]. unfold numeral_text.
  cbn [negative whole decimals].
  pose proof (body_head w f) as Hh.
  remember (digits_text w
            ++ fraction_text f) as body eqn:Hb.
  destruct (unsigned_head body Hh) as (Ht & Hs & Hi).
  rewrite <- (parse_unsigned neg w f Hb).
  unfold parseFloat. destruct neg.
  - change (str "-" ++ body) with (45%N :: body).
    change (trim_start (45%N :: body)) with (45%N :: body).
    change (take_sign (45%N :: body)) with (true, body).
    cbv beta iota.
    match goal with
    | |- context [starts_with ?a ?b] =>
        replace (starts_with a b) with (@None jsstring)
          by (symmetry; exact Hi)
    end.
    reflexivity.
  - change ([] ++ body) with body. rewrite Ht, Hs.
    cbv beta iota.
    match goal with
    | |- context [starts_with ?a ?b] =>
        replace (starts_with a b) with (@None jsstring)
          by (symmetry; exact Hi)
    end.
    reflexivity.
Qed.

(** The number used for a typed numeral is the number it stands for. *)
Lemma coerce_numeral (n : numeral) :
  coerce (numeral_text n) = numeral_number n.
Proof.
  unfold coerce, or_number, numeral_number. rewrite parseFloat_numeral.
  destruct n as [neg w f]. cbn [negative whole decimals].
  destruct w, f; cbv iota; try reflexivity;
    match goal with
    | |- context [of_decimal ?a ?b ?c] =>
        pose proof (of_decimal_not_nan a b c) as Hn;
        destruct (of_decimal a b c) as [[]|[]| |[] m e]
    end; simpl in *; congruence.
Qed.

Lemma entries_fold (rows : list item) (entries : list (numeral * numeral))
      (acc : number) :
  map numeric rows = map entry_texts entries ->
  fold_left (fun s it => (s + lineTotal it)%num) rows acc
  = fold_left (fun s e =>
                 (s + numeral_number (fst e) * numeral_number (snd e))%num)
              entries acc.
Proof.
  revert entries acc.
  induction rows as [|it rows IH]; intros [|e entries] acc H;
    cbn [map] in H; try discriminate; [reflexivity|].
  injection H as Hq Hp Hrest. cbn [fold_left].
  assert (E : lineTotal it
              = (numeral_number (fst e) * numeral_number (snd e))%num)
    by (unfold lineTotal; now rewrite Hq, Hp, !coerce_numeral).
  rewrite E. now apply IH.
Qed.

End TotalsFacts.

(** C1, as amended.  For every ledger and every margin text, with [m] the
    margin after coercion: the amount with margin is
    [subtotal + subtotal * (m / 100)], the tax is that amount times [0.1],
    and the total is their sum, each operation being a double-precision
    one. *)
Theorem C1_totals_relations (rows : list item) (marginValue : jsstring) :
  let t := computeTotals rows marginValue in
  let m := coerce marginValue in
  subtotalWithMargin t = (subtotal t + subtotal t * (m / lit_100))%num
  /\ gst t = (subtotalWithMargin t * lit_0_1)%num
  /\ total t = (subtotalWithMargin t + gst t)%num.
Proof. cbv zeta. repeat split. Qed.

(** C1 as stated fails: for the row 2 x 45.00 with margin 10 the code has
    [90 + 90 * (10 / 100) = 99], whereas [90 * (1 + 10 / 100)] is
    [99.00000000000001] in double precision. *)
Lemma C1_margin_formula_differs :
  let t := computeTotals (one_row "Install tap" "2" "45.00") (str "10") in
  let m := coerce (str "10") in
  subtotalWithMargin t = parseFloat (str "99")
  /\ (subtotal t * (lit_1 + m / lit_100))%num
     = parseFloat (str "99.00000000000001")
  /\ subtotalWithMargin t <> (subtotal t * (lit_1 + m / lit_100))%num.
Proof.
  cbv zeta. split; [|split]; vm_compute; [reflexivity | reflexivity |].
  intros H. discriminate H.
Qed.

(** C2.  The subtotal is the sum, taken in row order from zero, of
    quantity times unit price over all rows, whatever their descriptions;
    two pages whose rows hold the same quantities and prices in the same
    order have the same subtotal, whichever rows were added and removed on
    the way and whatever the margins; and the quantities and prices are
    the numbers that were entered: when the inputs hold decimal numerals,
    the subtotal is the sum of the products of the doubles nearest to
    them. *)
Theorem C2_subtotal_is_sum (p q : page) :
  map numeric (itemRows p) = map numeric (itemRows q) ->
  subtotal (totals_of p)
  = sigma (List.length (itemRows p))
          (fun i => let it := nth i (itemRows p) blank in
                    (coerce (value (qtyInput it))
                     * coerce (value (priceInput it)))%num)
  /\ subtotal (totals_of p) = subtotal (totals_of q)
  /\ (forall entries,
        map numeric (itemRows p) = map entry_texts entries ->
        subtotal (totals_of p) = entries_sum entries
        /\ subtotal (totals_of q) = entries_sum entries).
Proof.
  intros H. unfold totals_of. rewrite !subtotal_fold. split; [|split].
  - apply fold_is_sigma.
  - pose proof (map_lineTotal_numeric _ _ H) as Hl.
    pose proof (computeTotals_ext (itemRows p) (itemRows q) [] [] Hl eq_refl)
      as E.
    apply (f_equal subtotal) in E. now rewrite !subtotal_fold in E.
  - intros entries He. split; apply entries_fold; congruence.
Qed.

(** The same ledger reached by two histories: 2 at 45.00 was typed, and
    the subtotal is 90, the double [6333186975989760 * 2^-46], both
    times. *)
Lemma C2_two_histories :
  map numeric (itemRows tap_page) = map numeric (itemRows tap_page_later)
  /\ map row (itemRows tap_page) <> map row (itemRows tap_page_later)
  /\ subtotal (totals_of tap_page) = subtotal (totals_of tap_page_later)
  /\ subtotal (totals_of tap_page) = of_Z 90
  /\ subtotal (totals_of tap_page_later) = of_Z 90
  /\ of_Z 90 = S754_finite false 6333186975989760 (-46).
Proof.
  pose proof (C2_subtotal_is_sum tap_page tap_page_later eq_refl)
    as (_ & Hsame & Hsum).
  destruct (Hsum [({| negative := false;
                      whole := Decimal.D2 Decimal.Nil;
                      decimals := Decimal.Nil |},
                   {| negative := false;
                      whole := Decimal.D4 (Decimal.D5 Decimal.Nil);
                      decimals := Decimal.D0 (Decimal.D0 Decimal.Nil) |})]
                 eq_refl) as (Hp & Hq).
  split; [reflexivity|]. split; [vm_compute; discriminate|].
  split; [exact Hsame|].
  split; [rewrite Hp; reflexivity|].
  split; [rewrite Hq; reflexivity | reflexivity].
Defined.




(** C4 fails on the code.  Typing [-5] as quantity and [10] as price into
    the first row of a fresh dashboard uses the quantity [-5]: the subtotal
    shown is [-50.00] and the total [-55.00]. *)
Theorem C4_negative_quantity_used :
  let p := input 0 Price (str "10")
             (input 0 Quantity (str "-5") (initDashboard html0)) in
  map (fun it => min (qtyInput it)) (itemRows p) = [str "0"]
  /\ map (fun it => coerce (value (qtyInput it))) (itemRows p) = [of_Z (-5)]
  /\ is_negative (subtotal (totals_of p)) = true
  /\ subtotalDisplay p = str "-50.00"
  /\ totalDisplay p = str "-55.00".
Proof. cbv zeta. repeat split. Qed.

(** C5.  For the single row "Install tap", 2 at 45.00, with margin 10, the
    values are 90, 99, 9.9 and 108.9 and read 90.00, 99.00, 9.90 and 108.90
    with two decimals.  What a page shows is always [toFixed(2)] of the
    unrounded values; the row 1 x 0.45 with no margin shows tax 0.05 and
    total 0.49, the total being computed from the unrounded tax. *)
Theorem C5_install_tap_scenario :
  let t := totals_of tap_page in
  (subtotal t = parseFloat (str "90")
   /\ subtotalWithMargin t = parseFloat (str "99")
   /\ gst t = parseFloat (str "9.9")
   /\ total t = parseFloat (str "108.9"))
  /\ (toFixed2 (subtotal t) = str "90.00"
      /\ toFixed2 (subtotalWithMargin t) = str "99.00"
      /\ toFixed2 (gst t) = str "9.90"
      /\ toFixed2 (total t) = str "108.90")
  /\ (subtotalDisplay tap_page = str "90.00"
      /\ gstDisplay tap_page = str "9.90"
      /\ totalDisplay tap_page = str "108.90")
  /\ (forall p,
        subtotalDisplay (recalcTotals p) = toFixed2 (subtotal (totals_of p))
        /\ gstDisplay (recalcTotals p) = toFixed2 (gst (totals_of p))
        /\ totalDisplay (recalcTotals p) = toFixed2 (total (totals_of p)))
  /\ (let u := computeTotals (one_row "" "1" "0.45") [] in
      toFixed2 (subtotal u) = str "0.45"
      /\ toFixed2 (gst u) = str "0.05"
      /\ toFixed2 (total u) = str "0.49").
Proof.
  cbv zeta. split; [|split; [|split; [|split]]].
  - vm_compute. repeat split.
  - vm_compute. repeat split.
  - vm_compute. repeat split.
  - intros p. repeat split.
  - vm_compute. repeat split.
Qed.

(* ------------------------------------------------------------------ *)
(** ** Removing rows *)

Section LedgerFacts.

Lemma existsb_handle (h : handle) (body : list handle) :
  existsb (Nat.eqb h) body = true <-> In h body.
Proof.
  rewrite existsb_exists. split.
  - intros (x & Hx & E). apply Nat.eqb_eq in E. now subst.
  - intros H. exists h. split; [assumption | apply Nat.eqb_refl].
Qed.

Lemma filter_keeps_all (h : handle) (rows : list item) :
  ~ In h (map row rows) -> filter (keeps h) rows = rows.
Proof.
  induction rows as [|a rows IH]; simpl; intros H; [reflexivity|].
  unfold keeps at 1. destruct (Nat.eqb_spec (row a) h) as [E|E]; simpl.
  - exfalso. apply H. now left.
  - f_equal. apply IH. intros Hin. apply H. now right.
Qed.

(** [findIndex] followed by [splice] keeps exactly the other rows. *)
Lemma splice_found (h : handle) (rows : list item) :
  NoDup (map row rows) ->
  match findIndex h rows with
  | Some idx => splice1 idx rows
  | None => rows
  end = filter (keeps h) rows.
Proof.
  induction rows as [|a rows IH]; simpl; intros Hnd; [reflexivity|].
  inversion Hnd as [|x l Hx Hl]; subst.
  unfold keeps at 1. destruct (Nat.eqb_spec (row a) h) as [E|E]; simpl.
  - subst h. unfold splice1. simpl. symmetry. now apply filter_keeps_all.
  - specialize (IH Hl). destruct (findIndex h rows) as [i|]; simpl.
    + change (splice1 (S i) (a :: rows)) with (a :: splice1 i rows).
      now rewrite IH.
    + now rewrite <- IH.
Qed.

Lemma removeChild_rows (h : handle) (rows : list item) :
  NoDup (map row rows) ->
  removeChild h (map row rows) = map row (filter (keeps h) rows).
Proof.
  induction rows as [|a rows IH]; simpl; intros Hnd; [reflexivity|].
  inversion Hnd as [|x l Hx Hl]; subst.
  unfold keeps at 1. destruct (Nat.eqb_spec (row a) h) as [E|E]; simpl.
  - subst h. now rewrite filter_keeps_all.
  - now rewrite IH.
Qed.

Lemma NoDup_map_filter (f : item -> bool) (rows : list item) :
  NoDup (map row rows) -> NoDup (map row (filter f rows)).
Proof.
  induction rows as [|a rows IH]; simpl; intros Hnd; [constructor|].
  inversion Hnd as [|x l Hx Hl]; subst.
  destruct (f a); simpl; [constructor|]; auto.
  intros Hin. apply Hx. apply in_map_iff in Hin as (y & Hy & Hin).
  apply filter_In in Hin as [Hin _]. apply in_map_iff. now exists y.
Qed.

Lemma remove_click_rows (h : handle) (p : page) :
  page_ok p ->
  itemRows (fst (remove_click h p)) = filter (keeps h) (itemRows p)
  /\ itemsTableBody (fst (remove_click h p))
     = map row (filter (keeps h) (itemRows p))
  /\ created (fst (remove_click h p)) = created p.
Proof.
  intros (Hnd & Hbody & Hfresh). unfold remove_click.
  destruct (existsb (Nat.eqb h) (itemsTableBody p)) eqn:E; simpl.
  - rewrite splice_found by assumption. rewrite Hbody.
    rewrite removeChild_rows by assumption. auto.
  - assert (Hout : ~ In h (map row (itemRows p))).
    { rewrite <- Hbody. intros Hin. apply existsb_handle in Hin. congruence. }
    rewrite filter_keeps_all by assumption. auto.
Qed.

Lemma remove_click_ok (h : handle) (p : page) :
  page_ok p -> page_ok (fst (remove_click h p)).
Proof.
  intros Hok. destruct (remove_click_rows h Hok) as (Hr & Hb & Hc).
  destruct Hok as (Hnd & Hbody & Hfresh).
  unfold page_ok. rewrite Hr, Hb, Hc. split; [|split].
  - now apply NoDup_map_filter.
  - reflexivity.
  - rewrite Forall_forall in *. intros it Hin.
    apply filter_In in Hin as [Hin _]. now apply Hfresh.
Qed.

Lemma addItemRow_ok (p : page) : page_ok p -> page_ok (addItemRow p).
Proof.
  intros (Hnd & Hbody & Hfresh). unfold page_ok, addItemRow; simpl.
  rewrite map_app; simpl. split; [|split].
  - apply NoDup_app; [assumption | repeat constructor; intros [] | ].
    intros x Hin [E|[]]. subst x.
    apply in_map_iff in Hin as (it & E & Hin).
    rewrite Forall_forall in Hfresh. specialize (Hfresh it Hin). lia.
  - now rewrite Hbody.
  - apply Forall_app. split.
    + apply Forall_impl with (2 := Hfresh). intros; lia.
    + repeat constructor.
Qed.

Lemma input_ok (h : handle) (f : field) (v : jsstring) (p : page) :
  page_ok p -> page_ok (input h f v p).
Proof.
  intros (Hnd & Hbody & Hfresh).
  assert (Hrow : forall l,
             map row (map (fun it =>
               if Nat.eqb (row it) h then
                 match f with
                 | Description => set_field f v it
                 | _ => updateRowTotal (set_field f v it)
                 end
               else it) l) = map row l).
  { intros l. rewrite map_map. apply map_ext. intros it.
    destruct (Nat.eqb (row it) h), f; reflexivity. }
  assert (Hok : page_ok (set_rows (itemsTableBody p)
                  (map (fun it =>
                     if Nat.eqb (row it) h then
                       match f with
                       | Description => set_field f v it
                       | _ => updateRowTotal (set_field f v it)
                       end
                     else it) (itemRows p)) (created p) p)).
  { unfold page_ok; simpl. rewrite Hrow. split; [assumption|].
    split; [assumption|].
    rewrite Forall_forall in *. intros it Hin.
    apply in_map_iff in Hin as (it0 & E & Hin). specialize (Hfresh _ Hin).
    subst it. destruct (Nat.eqb (row it0) h), f; simpl; assumption. }
  unfold input. destruct f; exact Hok.
Qed.

(** Every page the listeners produce is well formed. *)
Lemma reachable_ok (p : page) : reachable p -> page_ok p.
Proof.
  induction 1 as [html|p _ IH|p h _ IH|p h f v _ IH|p v _ IH|p v _ IH|p _ IH].
  - unfold page_ok; simpl. repeat constructor. intros [].
  - now apply addItemRow_ok.
  - now apply remove_click_ok.
  - now apply input_ok.
  - exact IH.
  - exact IH.
  - exact IH.
Qed.

End LedgerFacts.

(** C8.  On a well-formed page, clicking the remove button of a row that
    is not in the ledger leaves the page as it was (the listener ends on the
    error of [removeChild]); removing a row keeps the other rows, with
    their identities, contents and order, hence each with the line total it
    had; and removing the same row once more changes nothing. *)
Theorem C8_remove_row_frame (h : handle) (p : page) :
  page_ok p ->
  (~ In h (map row (itemRows p)) -> remove_click h p = (p, NotFoundError))
  /\ itemRows (fst (remove_click h p)) = filter (keeps h) (itemRows p)
  /\ map lineTotal (itemRows (fst (remove_click h p)))
     = map lineTotal (filter (keeps h) (itemRows p))
  /\ remove_click h (fst (remove_click h p))
     = (fst (remove_click h p), NotFoundError).
Proof.
  intros Hok.
  assert (Hno : forall q, page_ok q -> ~ In h (map row (itemRows q)) ->
                          remove_click h q = (q, NotFoundError)).
  { intros q (_ & Hbody & _) Hout. unfold remove_click.
    destruct (existsb (Nat.eqb h) (itemsTableBody q)) eqn:E; [|reflexivity].
    apply existsb_handle in E. rewrite Hbody in E. contradiction. }
  destruct (remove_click_rows h Hok) as (Hr & _ & _).
  split; [now apply Hno|]. split; [exact Hr|]. split; [now rewrite Hr|].
  apply Hno; [now apply remove_click_ok|].
  rewrite Hr. intros Hin. apply in_map_iff in Hin as (it & E & Hin).
  apply filter_In in Hin as [_ Hk]. unfold keeps in Hk.
  rewrite E, Nat.eqb_refl in Hk. discriminate.
Qed.

(** Removing the middle one of three rows of a dashboard. *)
Lemma C8_three_rows :
  let p := addItemRow (addItemRow (initDashboard html0)) in
  page_ok p
  /\ map row (itemRows (fst (remove_click 1 p))) = [0; 2]
  /\ remove_click 7 p = (p, NotFoundError).
Proof.
  cbv zeta.
  assert (Hok : page_ok (addItemRow (addItemRow (initDashboard html0)))).
  { apply reachable_ok. do 2 apply reach_add. apply reach_init. }
  split; [exact Hok|]. split.
  - rewrite (proj1 (proj2 (C8_remove_row_frame 1 Hok))). reflexivity.
  - apply (proj1 (C8_remove_row_frame 7 Hok)). simpl. intuition discriminate.
Defined.

(* ------------------------------------------------------------------ *)
(** ** The name of the exported file *)

Section FilenameFacts.

Lemma replace_ws_nonempty (s : jsstring) :
  s <> [] -> replace_ws false s <> [].
Proof.
  destruct s as [|c s]; [congruence|]. intros _. simpl.
  destruct (is_white_space c); discriminate.
Qed.

(** The fall-back ["client"] of [doc.save] is never taken: the name is
    that of the client, or ["Client"], with white space replaced. *)
Lemma pdf_filename_spelled_out (p : page) :
  pdf_filename p
  = str "quote-"
    ++ replace_ws false (or_string (clientName p) (str "Client"))
    ++ str ".pdf".
Proof.
  unfold pdf_filename.
  assert (H : or_string (clientName p) (str "Client") <> []).
  { unfold or_string. destruct (clientName p); simpl; discriminate. }
  apply replace_ws_nonempty in H.
  destruct (replace_ws false (or_string (clientName p) (str "Client")));
    [congruence | reflexivity].
Qed.

(** No white space is left in the replaced name, and runs collapse. *)
Lemma replace_ws_clean (s : jsstring) (b : bool) :
  Forall (fun c => is_white_space c = false) (replace_ws b s).
Proof.
  revert b. induction s as [|c s IH]; intros b; simpl; [constructor|].
  destruct (is_white_space c) eqn:E.
  - destruct b; [apply IH | constructor; [reflexivity | apply IH]].
  - constructor; [assumption | apply IH].
Qed.

(** Text that does not begin with white space. *)
Lemma replace_ws_flag (s : jsstring) :
  match s with c :: _ => is_white_space c = false | [] => True end ->
  replace_ws true s = replace_ws false s.
Proof.
  destruct s as [|c s]; [reflexivity|]. simpl. now intros ->.
Qed.

(** A run of white space, however long, becomes one underscore. *)
Lemma replace_ws_run (w s : jsstring) :
  w <> [] ->
  Forall (fun c => is_white_space c = true) w ->
  match s with c :: _ => is_white_space c = false | [] => True end ->
  replace_ws false (w ++ s) = 95%N :: replace_ws false s.
Proof.
  intros Hw Hall Hs.
  assert (Hrun : forall w', Forall (fun c => is_white_space c = true) w' ->
                            replace_ws true (w' ++ s) = replace_ws false s).
  { induction w' as [|c w' IH]; intros H; simpl.
    - now apply replace_ws_flag.
    - inversion H as [|x l Hc Hl]; subst. rewrite Hc. now apply IH. }
  destruct w as [|c w]; [congruence|].
  inversion Hall as [|x l Hc Hl]; subst. simpl. rewrite Hc.
  now rewrite Hrun.
Qed.

(** Any other code unit is kept. *)
Lemma replace_ws_keep (b : bool) (c : code_unit) (s : jsstring) :
  is_white_space c = false -> replace_ws b (c :: s) = c :: replace_ws false s.
Proof. intros H. simpl. now rewrite H. Qed.

End FilenameFacts.

(** C9 fails on the code.  With an empty client name the file is called
    [quote-Client.pdf], with a capital C: the name was already replaced by
    ["Client"] before the file name is built, so the default ["client"] of
    [doc.save] is never used.  A name made of spaces gives [quote-_.pdf],
    and runs of white space inside a name become one underscore each. *)
Theorem C9_blank_client_name (p : page) :
  pdf_filename (input_clientName [] p) = str "quote-Client.pdf"
  /\ pdf_filename (input_clientName [] p) <> str "quote-client.pdf"
  /\ pdf_filename (input_clientName (str "   ") p) = str "quote-_.pdf"
  /\ pdf_filename (input_clientName (str "Jo  Ann Smith") p)
     = str "quote-Jo_Ann_Smith.pdf".
Proof. repeat split. vm_compute. discriminate. Qed.

(* ------------------------------------------------------------------ *)
(** ** [JSON.parse] always answers *)

Section JsonFacts.

Lemma skip_ws_length (s : jsstring) :
  List.length (skip_ws s) <= List.length s.
Proof.
  induction s as [|c s IH]; simpl; [lia|].
  destruct (is_json_ws c); simpl; lia.
Qed.

Lemma after_length (c : code_unit) (s r : jsstring) :
  after c s = Some r -> List.length s = S (List.length r).
Proof.
  destruct s as [|d s]; simpl; [discriminate|].
  destruct (cu_eqb d c); [|discriminate]. now intros [= ->].
Qed.

Lemma starts_with_length (p s r : jsstring) :
  starts_with p s = Some r ->
  List.length s = List.length p + List.length r.
Proof.
  revert s. induction p as [|x p IH]; intros s; simpl.
  - now intros [= ->].
  - destruct s as [|y s]; [discriminate|].
    destruct (cu_eqb x y); [|discriminate].
    intros H. apply IH in H. simpl. lia.
Qed.

Lemma span_digits_length (s : jsstring) (ds : list Z) (r : jsstring) :
  span_digits s = (ds, r) ->
  List.length s = List.length ds + List.length r.
Proof.
  revert ds r. induction s as [|c s IH]; intros ds r; simpl.
  - now intros [= <- <-].
  - destruct (is_digit c).
    + destruct (span_digits s) as [ds' r'] eqn:E.
      intros [= <- <-]. specialize (IH _ _ eq_refl). simpl. lia.
    + now intros [= <- <-].
Qed.

Lemma take_sign_length (s : jsstring) :
  List.length (snd (take_sign s)) <= List.length s.
Proof.
  destruct s as [|c r]; simpl; [lia|].
  destruct (c =? 43)%N; [simpl; lia|].
  destruct (c =? 45)%N; simpl; lia.
Qed.

Lemma string_chars_bounded (n : nat) :
  forall s cs r,
    List.length s <= n -> string_chars s = Some (cs, r) ->
    List.length r < List.length s.
Proof.
  induction n as [|n IH]; intros s cs r Hn.
  - destruct s; [discriminate | simpl in Hn; lia].
  - destruct s as [|c s]; [discriminate|]. simpl in Hn. simpl.
    destruct (c =? 34)%N; [intros [= <- <-]; lia|].
    destruct (c =? 92)%N.
    + destruct s as [|e s]; [discriminate|].
      destruct (e =? 117)%N.
      * destruct s as [|a [|b [|c' [|d s]]]]; try discriminate.
        destruct (hex4 a b c' d); [|discriminate].
        destruct (string_chars s) as [[cs' r']|] eqn:E; [|discriminate].
        intros [= <- <-]. apply IH in E; simpl in *; lia.
      * destruct (escaped e); [|discriminate].
        destruct (string_chars s) as [[cs' r']|] eqn:E; [|discriminate].
        intros [= <- <-]. apply IH in E; simpl in *; lia.
    + destruct (c <? 32)%N; [discriminate|].
      destruct (string_chars s) as [[cs' r']|] eqn:E; [|discriminate].
      intros [= <- <-]. apply IH in E; simpl in *; lia.
Qed.

Lemma string_chars_length (s cs r : jsstring) :
  string_chars s = Some (cs, r) -> List.length r < List.length s.
Proof. apply string_chars_bounded with (n := List.length s). lia. Qed.

Lemma json_number_length (s : jsstring) (x : number) (r : jsstring) :
  json_number s = Some (x, r) -> List.length r < List.length s.
Proof.
  unfold json_number.
  set (signed := match s with
                 | c :: r0 => if (c =? 45)%N then (true, r0) else (false, s)
                 | [] => (false, s)
                 end).
  assert (Hs : List.length (snd signed) <= List.length s).
  { subst signed. destruct s as [|c r0]; simpl; [lia|].
    destruct (c =? 45)%N; simpl; lia. }
  destruct signed as [neg s1]. simpl in Hs.
  destruct (span_digits s1) as [ip r1] eqn:E1.
  apply span_digits_length in E1.
  destruct ip as [|d ip]; [discriminate|].
  assert (H1 : List.length r1 < List.length s) by (simpl in E1; lia).
  clear E1 Hs.
  set (frac := match r1 with
               | c :: r0 =>
                   if (c =? 46)%N then
                     match span_digits r0 with
                     | ([], _) => None
                     | (fp, r2) => Some (fp, r2)
                     end
                   else Some ([], r1)
               | [] => Some ([], r1)
               end).
  assert (Hf : forall fp r2, frac = Some (fp, r2) ->
                             List.length r2 <= List.length r1).
  { subst frac. intros fp r2. destruct r1 as [|c r0]; [now intros [= <- <-]|].
    destruct (c =? 46)%N; [|now intros [= <- <-]].
    destruct (span_digits r0) as [fp' r2'] eqn:E2.
    apply span_digits_length in E2.
    destruct fp'; [discriminate|]. intros [= <- <-]. simpl in *. lia. }
  assert (Hrest : match frac with
    | None => None
    | Some (fp, r2) =>
        let exp :=
          match r2 with
          | c :: r0 =>
              if ((c =? 101) || (c =? 69))%N then
                let '(eneg, r') := take_sign r0 in
                match span_digits r' with
                | ([], _) => None
                | (ds, r3) => Some (cond_Zopp eneg (digits_value ds), r3)
                end
              else Some (0%Z, r2)
          | [] => Some (0%Z, r2)
          end in
        match exp with
        | None => None
        | Some (e, r3) =>
            Some (of_decimal neg (digits_value ((d :: ip) ++ fp))
                             (e - Z.of_nat (List.length fp)), r3)
        end
    end = Some (x, r) -> List.length r < List.length s).
  { destruct frac as [[fp r2]|]; [|discriminate].
    specialize (Hf _ _ eq_refl). cbv zeta.
    destruct r2 as [|c r0]; [intros [= <- <-]; lia|].
    destruct ((c =? 101) || (c =? 69))%N; [|intros [= <- <-]; lia].
    pose proof (take_sign_length r0) as Ht.
    destruct (take_sign r0) as [eneg r']. simpl in Ht.
    destruct (span_digits r') as [ds r3] eqn:E3.
    apply span_digits_length in E3.
    destruct ds; [discriminate|]. intros [= <- <-]. simpl in *. lia. }
  destruct ip; exact Hrest || (destruct d; exact Hrest || discriminate).
Qed.

Lemma literal_progresses (w : string) (v : jsvalue) (s : jsstring) :
  String.length w <> 0 -> progresses s (literal w v s).
Proof.
  intros Hw. unfold literal.
  destruct (starts_with (str w) s) as [r|] eqn:E; simpl; [|exact I].
  apply starts_with_length in E. unfold str in E.
  rewrite length_map in E.
  assert (List.length (list_ascii_of_string w) = String.length w) as Hl.
  { clear. induction w; simpl; congruence. }
  lia.
Qed.

Lemma progresses_shorter (s s' : jsstring) (res : parsed jsvalue) :
  List.length s' <= List.length s -> progresses s' res -> progresses s res.
Proof. destruct res; simpl; lia || auto. Qed.

(** With fuel beyond twice the length of the input, the three parsers
    never stop for want of fuel, and what they leave is shorter than what
    they were given. *)
Lemma parse_fuel (fuel : nat) :
  (forall s, 2 * List.length s + 1 <= fuel ->
             progresses s (parse_value fuel s))
  /\ (forall s acc, 2 * List.length s + 2 <= fuel ->
                    progresses s (parse_elements fuel s acc))
  /\ (forall s acc, 2 * List.length s + 2 <= fuel ->
                    progresses s (parse_members fuel s acc)).
Proof.
  induction fuel as [|fuel (IHv & IHe & IHm)].
  - repeat split; intros; lia.
  - split; [|split].
    + intros s Hf. simpl.
      pose proof (skip_ws_length s) as Hs.
      destruct (skip_ws s) as [|c r] eqn:Es; [exact I|]. simpl in Hs.
      apply progresses_shorter with (s' := c :: r); [simpl; lia|].
      destruct (c =? 123)%N.
      { pose proof (skip_ws_length r) as Hr.
        destruct (after 125%N (skip_ws r)) as [r'|] eqn:Ea.
        - apply after_length in Ea. simpl. lia.
        - apply progresses_shorter with (s' := r); [simpl; lia|].
          apply IHm. lia. }
      destruct (c =? 91)%N.
      { pose proof (skip_ws_length r) as Hr.
        destruct (after 93%N (skip_ws r)) as [r'|] eqn:Ea.
        - apply after_length in Ea. simpl. lia.
        - apply progresses_shorter with (s' := r); [simpl; lia|].
          apply IHe. lia. }
      destruct (c =? 34)%N.
      { destruct (string_chars r) as [[cs r']|] eqn:E; [|exact I].
        apply string_chars_length in E. simpl. lia. }
      destruct (c =? 110)%N; [now apply literal_progresses|].
      destruct (c =? 116)%N; [now apply literal_progresses|].
      destruct (c =? 102)%N; [now apply literal_progresses|].
      destruct (json_number (c :: r)) as [[x r']|] eqn:E; [|exact I].
      apply json_number_length in E. exact E.
    + intros s acc Hf. simpl.
      specialize (IHv s ltac:(lia)).
      destruct (parse_value fuel s) as [v r| |]; [|exact I|exact IHv].
      simpl in IHv. pose proof (skip_ws_length r) as Hr.
      destruct (after 44%N (skip_ws r)) as [r'|] eqn:Ea.
      * apply after_length in Ea.
        apply progresses_shorter with (s' := r'); [lia|].
        apply IHe. lia.
      * destruct (after 93%N (skip_ws r)) as [r'|] eqn:Eb; [|exact I].
        apply after_length in Eb. simpl. lia.
    + intros s acc Hf. simpl.
      pose proof (skip_ws_length s) as Hs.
      destruct (after 34%N (skip_ws s)) as [r|] eqn:Ea; [|exact I].
      apply after_length in Ea.
      destruct (string_chars r) as [[key r1]|] eqn:Ek; [|exact I].
      apply string_chars_length in Ek.
      pose proof (skip_ws_length r1) as Hr1.
      destruct (after 58%N (skip_ws r1)) as [r2|] eqn:Ec; [|exact I].
      apply after_length in Ec.
      specialize (IHv r2 ltac:(lia)).
      destruct (parse_value fuel r2) as [v r3| |]; [|exact I|exact IHv].
      simpl in IHv. pose proof (skip_ws_length r3) as Hr3.
      destruct (after 44%N (skip_ws r3)) as [r4|] eqn:Ed.
      * apply after_length in Ed.
        apply progresses_shorter with (s' := r4); [lia|].
        apply IHm. lia.
      * destruct (after 125%N (skip_ws r3)) as [r4|] eqn:Ee; [|exact I].
        apply after_length in Ee. simpl. lia.
Qed.

(** [JSON_parse] answers [None] only for a text that is not JSON. *)
Lemma JSON_parse_has_fuel (text : jsstring) :
  parse_value (2 * List.length text + 1) text <> OutOfFuel.
Proof.
  pose proof (proj1 (parse_fuel (2 * List.length text + 1)) text (le_n _))
    as H.
  intros E. rewrite E in H. exact H.
Qed.

End JsonFacts.

(* ------------------------------------------------------------------ *)
(** ** Registration and login *)

Section AuthFacts.
Context {R : Runtime}.

Lemma jseqb_eq (a b : jsstring) : jseqb a b = true <-> a = b.
Proof.
  revert b. induction a as [|x a IH]; intros [|y b]; simpl;
    try (split; [discriminate | congruence]); [tauto|].
  unfold cu_eqb. rewrite andb_true_iff, N.eqb_eq, IH.
  split; [intros [-> ->]; reflexivity | intros [= -> ->]; auto].
Qed.

Lemma jseqb_refl (a : jsstring) : jseqb a a = true.
Proof. now apply jseqb_eq. Qed.

Lemma own_In (key : jsstring) (ps : list (jsstring * jsvalue)) (v : jsvalue) :
  own key ps = Some v -> In (key, v) ps.
Proof.
  induction ps as [|[k w] ps IH]; simpl; [discriminate|].
  destruct (jseqb k key) eqn:E.
  - apply jseqb_eq in E. intros [= ->]. left. now subst.
  - intros H. right. now apply IH.
Qed.

Lemma own_None (key : jsstring) (ps : list (jsstring * jsvalue)) :
  own key ps = None -> forall v, ~ In (key, v) ps.
Proof.
  induction ps as [|[k w] ps IH]; simpl; intros H v; [tauto|].
  destruct (jseqb k key) eqn:E; [discriminate|].
  intros [[= -> _]|Hin].
  - rewrite jseqb_refl in E. discriminate.
  - now apply (IH H v).
Qed.

(** No member of [Object.prototype] has an [@] in its name. *)
Lemma at_sign_not_inherited (key : jsstring) :
  In at_sign key -> inherited key = false.
Proof.
  intros Hat. destruct (inherited key) eqn:E; [|reflexivity].
  exfalso. unfold inherited in E. apply existsb_exists in E as (k & Hk & E).
  apply jseqb_eq in E. subst k. revert Hat.
  unfold Object_prototype_keys in Hk. simpl in Hk.
  repeat (destruct Hk as [<-|Hk];
          [unfold at_sign; simpl; intuition discriminate|]).
  contradiction.
Qed.

(** The test that [loginUser] makes on an account map. *)
Lemma login_test (ps : list (jsstring * jsvalue)) (key pw : jsstring) :
  let user := get (JObj ps) key in
  negb (truthy_value user)
  || negb (strict_eq_string (get user (str "password")) pw) = false
  <-> has_account key pw ps.
Proof.
  cbv zeta. unfold has_account. simpl get.
  destruct (own key ps) as [w|] eqn:E.
  - destruct w as [| | | |l|fields| |];
      try (split; [destruct (truthy_value _); simpl; discriminate
                  | intros (f & [=] & _)]).
    simpl. destruct (own (str "password") fields) as [u|] eqn:Ep.
    + destruct u;
        try (split; [simpl; discriminate | intros (f & [= <-] & H);
                                           congruence]).
      simpl. split.
      * intros H. apply negb_false_iff, jseqb_eq in H. subst.
        now exists fields.
      * intros (f & [= <-] & H). rewrite Ep in H. injection H as ->.
        now rewrite jseqb_refl.
    + split; [simpl; discriminate|].
      intros (f & [= <-] & H). congruence.
  - split; [|intros (f & [=] & _)].
    destruct (inherited key); simpl; discriminate.
Qed.

Lemma loginUser_decides (id pw : jsstring) (b : browser)
      (ps : list (jsstring * jsvalue)) :
  supabase b = false ->
  getUsers (localStorage b) = JObj ps ->
  (has_account (normalize id) pw ps ->
   loginUser id pw b = login_ok (normalize id) b)
  /\ (~ has_account (normalize id) pw ps ->
      loginUser id pw b = login_failed b).
Proof.
  intros Hs Hu. unfold loginUser, login_ok, login_failed. rewrite Hs, Hu.
  pose proof (login_test ps (normalize id) pw) as T. cbv zeta in T.
  destruct (negb (truthy_value (get (JObj ps) (normalize id)))
            || negb (strict_eq_string
                       (get (get (JObj ps) (normalize id)) (str "password"))
                       pw)) eqn:E.
  - split; [|reflexivity]. intros H. apply T in H. discriminate.
  - split; [reflexivity|]. intros H. exfalso. apply H, T. reflexivity.
Qed.

(** What [registerUser] hands to [saveUsers] is a map of account objects
    again. *)
Lemma set_own_account_map (key name email pw : jsstring)
      (ps : list (jsstring * jsvalue)) :
  account_map ps -> account_map (set_own key (account name email pw) ps).
Proof.
  unfold account_map. induction ps as [|[k w] ps IH]; simpl; intros H.
  - repeat constructor. simpl. eexists. reflexivity.
  - inversion H as [|x l Hw Hl]; subst.
    destruct (jseqb k key); constructor; auto.
    simpl. eexists. reflexivity.
Qed.

(** A registration that is not refused saves the map with the new
    account in it. *)
Lemma registerUser_saves (name id pw : jsstring) (b : browser)
      (ps : list (jsstring * jsvalue)) :
  supabase b = false ->
  getUsers (localStorage b) = JObj ps ->
  truthy_value (get (JObj ps) (normalize id)) = false ->
  users_item (localStorage (registerUser name id pw b))
  = JSON_stringify
      (JObj (set_own (normalize id)
                     (account (trim name) (normalize id) pw) ps)).
Proof.
  intros Hs Hu Hf. unfold registerUser. rewrite Hs, Hu, Hf. reflexivity.
Qed.

Lemma getUsers_unreadable (ls : storage) :
  unreadable ls -> getUsers ls = JObj [].
Proof.
  unfold getUsers. intros [H|(t & H & Hp)]; rewrite H.
  - reflexivity.
  - now rewrite Hp.
Qed.

Lemma trim_start_Forall (P : code_unit -> Prop) (s : jsstring) :
  Forall P s -> Forall P (trim_start s).
Proof.
  induction s as [|c s IH]; intros H; simpl; [assumption|].
  destruct (is_white_space c); [|assumption].
  inversion H; subst. now apply IH.
Qed.

Lemma trim_Forall (P : code_unit -> Prop) (s : jsstring) :
  Forall P s -> Forall P (trim s).
Proof.
  intros H. unfold trim, trim_end.
  apply Forall_rev, trim_start_Forall, Forall_rev.
  now apply trim_start_Forall.
Qed.

(** On a host that lowers ASCII text as ECMAScript does, the stored form
    of an ASCII identifier is its trimmed text with [A] to [Z] lowered. *)
Lemma normalize_plain (id : jsstring) :
  lowers_ascii R -> plain_text id ->
  normalize id = map ascii_lower (trim id).
Proof.
  intros HR Hid. unfold normalize. apply HR. now apply trim_Forall.
Qed.

(** What [registerUser] tests on an account map. *)
Lemma register_test (ps : list (jsstring * jsvalue)) (key : jsstring) :
  account_map ps ->
  truthy_value (get (JObj ps) key) = true
  <-> registered key ps \/ inherited key = true.
Proof.
  intros Hacc. unfold registered. simpl get.
  destruct (own key ps) as [w|] eqn:E.
  - pose proof (own_In _ _ E) as Hin.
    unfold account_map in Hacc. rewrite Forall_forall in Hacc.
    destruct (Hacc _ Hin) as (fields & Hw). simpl in Hw. subst w.
    split; [intros _; left; now exists (JObj fields) | reflexivity].
  - destruct (inherited key); simpl.
    + split; [now right | reflexivity].
    + split; [discriminate|]. intros [(acct & Hin)|H]; [|discriminate].
      exfalso. eapply own_None; eassumption.
Qed.

Lemma registerUser_outcome (name id pw : jsstring) (b : browser) :
  supabase b = false ->
  let b' := registerUser name id pw b in
  (truthy_value (get (getUsers (localStorage b)) (normalize id)) = true ->
   duplicate_account b'
   /\ localStorage b' = localStorage b /\ location b' = location b)
  /\ (truthy_value (get (getUsers (localStorage b)) (normalize id)) = false ->
      ~ duplicate_account b'
      /\ currentUser_item (localStorage b') = Some (normalize id)
      /\ location b' = str "voice.html").
Proof.
  intros Hs. cbv zeta. unfold registerUser, duplicate_account. rewrite Hs.
  split; intros ->; simpl; repeat split. discriminate.
Qed.

End AuthFacts.

(** The host of the examples lowers ASCII text as ECMAScript does. *)
Lemma ascii_runtime_lowers : lowers_ascii ascii_runtime.
Proof. intros s _. reflexivity. Qed.

(** C6 fails on the code.  [registerUser] looks the identifier up with
    [users[email]], which also finds the members that every object
    inherits: on a store that holds no account at all, registering under
    [constructor] shows the duplicate message and stores nothing.  Bob,
    registering under the identifier Alice used, is refused as the claim
    says.  In general, without a provider and on a store that holds a map
    of account objects, a registration is refused exactly when an account
    is stored under the trimmed, lower-cased identifier or that identifier
    names a member of [Object.prototype]; a refusal leaves the storage and
    the address as they were; an accepted registration points the session
    at the identifier and opens the voice page.  On a host that lowers
    ASCII text as ECMAScript does, as the host of the examples does, ASCII
    identifiers whose trimmed forms differ only in the case of their
    letters are treated alike. *)
Theorem C6_register_duplicate :
  (let b' := registerUser (R := ascii_runtime) (str "Connie")
                          (str "constructor") (str "pw") new_browser in
   getUsers (localStorage new_browser) = JObj []
   /\ normalize (R := ascii_runtime) (str "constructor") = str "constructor"
   /\ duplicate_account b'
   /\ localStorage b' = localStorage new_browser
   /\ location b' = location new_browser)
  /\ (let b' := registerUser (R := ascii_runtime) (str "Bob")
                             (str "a@X.com") (str "pw2") alice_browser in
      getUsers (localStorage alice_browser) = JObj alice_accounts
      /\ duplicate_account b'
      /\ localStorage b' = localStorage alice_browser)
  /\ (forall (R : Runtime) (name id pw : jsstring) (b : browser)
             (ps : list (jsstring * jsvalue)),
        supabase b = false ->
        getUsers (localStorage b) = JObj ps ->
        account_map ps ->
        let b' := registerUser name id pw b in
        (duplicate_account b'
         <-> registered (normalize id) ps \/ inherited (normalize id) = true)
        /\ (duplicate_account b' ->
            localStorage b' = localStorage b /\ location b' = location b)
        /\ (~ duplicate_account b' ->
            currentUser_item (localStorage b') = Some (normalize id)
            /\ location b' = str "voice.html"))
  /\ (forall (R : Runtime),
        lowers_ascii R ->
        forall (name id id' pw : jsstring) (b : browser),
          plain_text id -> plain_text id' ->
          map ascii_lower (trim id) = map ascii_lower (trim id') ->
          registerUser name id' pw b = registerUser name id pw b)
  /\ lowers_ascii ascii_runtime.
Proof.
  split; [cbv zeta; repeat split|]. split; [cbv zeta; repeat split|].
  split; [|split; [|exact ascii_runtime_lowers]].
  - intros R name id pw b ps Hs Hu Hacc. cbv zeta.
    destruct (@registerUser_outcome R name id pw b Hs) as (Hyes & Hno).
    rewrite Hu in Hyes, Hno.
    pose proof (register_test (normalize id) Hacc) as T.
    destruct (truthy_value (get (JObj ps) (normalize id))) eqn:E.
    + destruct (Hyes eq_refl) as (Hd & Hl & Ha).
      split; [split; [intros _; now apply T | intros _; exact Hd]|].
      split; [auto | intros H; now elim H].
    + destruct (Hno eq_refl) as (Hd & Hc & Ha).
      split; [split; [intros H; now elim Hd | intros H]|].
      * apply T in H. discriminate.
      * split; [intros H; now elim Hd | auto].
  - intros R HR name id id' pw b Hid Hid' E.
    assert (N : normalize id' = normalize id)
      by (rewrite !normalize_plain by assumption; now symmetry).
    unfold registerUser. now rewrite N.
Qed.

(** C7.  Without a provider and on a store that holds an object: login
    succeeds exactly when an account is stored under the trimmed,
    lower-cased identifier and its password is the one supplied.  It then
    points the session at that identifier, under which the store holds the
    account with that password, hides the login error and opens the voice
    page, the stored accounts being untouched.  In every other case the
    page ends in one and the same state, whatever the identifier and the
    password were: the login error shown, and the storage and the address
    as they were. *)
Theorem C7_login_outcomes {R : Runtime} (id pw : jsstring) (b : browser)
        (ps : list (jsstring * jsvalue)) :
  supabase b = false ->
  getUsers (localStorage b) = JObj ps ->
  (has_account (normalize id) pw ps ->
   loginUser id pw b = login_ok (normalize id) b)
  /\ (~ has_account (normalize id) pw ps ->
      loginUser id pw b = login_failed b)
  /\ login_ok (normalize id) b <> login_failed b
  /\ (has_account (normalize id) pw ps ->
      currentUser_item (localStorage (loginUser id pw b))
      = Some (normalize id)
      /\ (exists fields,
            get (getUsers (localStorage (loginUser id pw b))) (normalize id)
            = JObj fields
            /\ get (JObj fields) (str "password") = JStr pw)
      /\ users_item (localStorage (loginUser id pw b))
         = users_item (localStorage b)
      /\ hidden (loginError (loginUser id pw b)) = true
      /\ location (loginUser id pw b) = str "voice.html")
  /\ (~ has_account (normalize id) pw ps ->
      localStorage (loginUser id pw b) = localStorage b
      /\ hidden (loginError (loginUser id pw b)) = false
      /\ location (loginUser id pw b) = location b).
Proof.
  intros Hs Hu.
  destruct (loginUser_decides id pw b Hs Hu) as (Hok & Hfail).
  split; [exact Hok|]. split; [exact Hfail|]. split; [|split].
  - unfold login_ok, login_failed. intros E.
    apply (f_equal (fun x => hidden (loginError x))) in E. discriminate.
  - intros Hhas. rewrite (Hok Hhas). unfold login_ok.
    cbn [localStorage loginError location hide hidden set_currentUser
         currentUser_item users_item].
    split; [reflexivity|]. split; [|repeat split].
    destruct Hhas as (fields & Hown & Hpw). exists fields.
    change (getUsers _) with (getUsers (localStorage b)). rewrite Hu.
    simpl get. rewrite Hown. split; [reflexivity|]. now rewrite Hpw.
  - intros Hno. rewrite (Hfail Hno). repeat split.
Qed.

(** Alice logs in with her password, and the session points at her
    account; a wrong password and an unknown identifier end in the same
    state, with the session as it was. *)
Lemma C7_alice_logs_in :
  loginUser (R := ascii_runtime) (str "A@X.COM") (str "pw1") alice_browser
  = login_ok (str "a@x.com") alice_browser
  /\ currentUser_item
       (localStorage (loginUser (R := ascii_runtime) (str "A@X.COM")
                                (str "pw1") (logoutUser alice_browser)))
     = Some (str "a@x.com")
  /\ loginUser (R := ascii_runtime) (str "a@x.com") (str "wrong")
               alice_browser
     = login_failed alice_browser
  /\ loginUser (R := ascii_runtime) (str "bob@x.com") (str "pw1")
               alice_browser
     = login_failed alice_browser
  /\ currentUser_item
       (localStorage (loginUser (R := ascii_runtime) (str "a@x.com")
                                (str "wrong") (logoutUser alice_browser)))
     = None.
Proof.
  assert (Halice : has_account (normalize (R := ascii_runtime)
                                          (str "A@X.COM"))
                               (str "pw1") alice_accounts)
    by (eexists; split; reflexivity).
  assert (Hwrong : ~ has_account (normalize (R := ascii_runtime)
                                            (str "a@x.com"))
                                 (str "wrong") alice_accounts).
  { intros (f & H1 & H2). vm_compute in H1. injection H1 as <-.
    vm_compute in H2. discriminate. }
  split; [|split; [|split; [|split]]].
  - apply (proj1 (@C7_login_outcomes ascii_runtime (str "A@X.COM")
                    (str "pw1") alice_browser alice_accounts
                    eq_refl eq_refl)).
    exact Halice.
  - apply (proj1 (proj2 (proj2 (proj2
             (@C7_login_outcomes ascii_runtime (str "A@X.COM")
                (str "pw1") (logoutUser alice_browser) alice_accounts
                eq_refl eq_refl))))).
    exact Halice.
  - apply (proj1 (proj2 (@C7_login_outcomes ascii_runtime (str "a@x.com")
                           (str "wrong") alice_browser alice_accounts
                           eq_refl eq_refl))).
    exact Hwrong.
  - apply (proj1 (proj2 (@C7_login_outcomes ascii_runtime (str "bob@x.com")
                           (str "pw1") alice_browser alice_accounts
                           eq_refl eq_refl))).
    intros (f & H1 & _). vm_compute in H1. discriminate.
  - rewrite (proj1 (proj2 (proj2 (proj2 (proj2
               (@C7_login_outcomes ascii_runtime (str "a@x.com")
                  (str "wrong") (logoutUser alice_browser) alice_accounts
                  eq_refl eq_refl)))) Hwrong)).
    reflexivity.
Defined.

(** C10.  When nothing is stored under [users], or what is stored is not
    JSON, [getUsers] answers the empty object.  Without a provider a login
    then fails as for wrong credentials, and a registration ends as it does
    on a store holding the empty object. *)
Theorem C10_unreadable_store {R : Runtime} (name id pw : jsstring)
        (b : browser) :
  unreadable (localStorage b) ->
  supabase b = false ->
  getUsers (localStorage b) = JObj []
  /\ loginUser id pw b = login_failed b
  /\ outcome (registerUser name id pw b)
     = outcome (registerUser name id pw (with_users (Some (str "{}")) b)).
Proof.
  intros Hbad Hs. pose proof (getUsers_unreadable Hbad) as Hu.
  split; [exact Hu|]. split.
  - apply (proj2 (loginUser_decides id pw b Hs Hu)).
    intros (f & H & _). discriminate.
  - unfold registerUser. simpl supabase. rewrite Hs.
    change (getUsers (localStorage (with_users (Some (str "{}")) b)))
      with (JObj []).
    rewrite Hu.
    destruct (truthy_value (get (JObj []) (normalize id))).
    + unfold outcome. simpl. now rewrite Hu.
    + reflexivity.
Qed.

(** On the damaged store Alice's login fails, and a registration ends as
    on a store holding the empty object. *)
Lemma C10_damaged_store :
  unreadable (localStorage damaged_browser)
  /\ getUsers (localStorage damaged_browser) = JObj []
  /\ loginUser (R := ascii_runtime) (str "a@x.com") (str "pw1")
               damaged_browser
     = login_failed damaged_browser
  /\ outcome (registerUser (R := ascii_runtime) (str "Bob")
                 (str "a@x.com") (str "pw1") damaged_browser)
     = outcome (registerUser (R := ascii_runtime) (str "Bob")
                  (str "a@x.com") (str "pw1")
                  (with_users (Some (str "{}")) damaged_browser)).
Proof.
  assert (Hbad : unreadable (localStorage damaged_browser)).
  { right. eexists. split; reflexivity. }
  pose proof (@C10_unreadable_store ascii_runtime (str "Bob")
                (str "a@x.com") (str "pw1") damaged_browser Hbad eq_refl)
    as (Hu & Hl & Hr).
  split; [exact Hbad|]. split; [exact Hu|]. split; [exact Hl | exact Hr].
Defined.

(* ------------------------------------------------------------------ *)
(** ** Reading back what [JSON.stringify] wrote *)

Section StringRoundTrip.

Lemma quote_unit_spec (c : code_unit) :
  quote_unit c
  = if (c =? 8)%N then [92; 98]%N
    else if (c =? 9)%N then [92; 116]%N
    else if (c =? 10)%N then [92; 110]%N
    else if (c =? 12)%N then [92; 102]%N
    else if (c =? 13)%N then [92; 114]%N
    else if (c =? 34)%N then [92; 34]%N
    else if (c =? 92)%N then [92; 92]%N
    else if ((c <? 32) || is_trail c)%N then unicode_escape c
    else [c].
Proof.
  destruct c as [|p]; [reflexivity|].
  do 7 (destruct p as [p|p|]; try reflexivity).
Qed.

Lemma hex_value_hex_digit (n : N) :
  (n < 16)%N -> hex_value (hex_digit n) = Some n.
Proof.
  intros H. destruct n as [|p]; [reflexivity|].
  do 4 (destruct p as [p|p|]; try reflexivity); lia.
Qed.

Lemma hex4_hex_digit (c : code_unit) :
  valid_unit c ->
  hex4 (hex_digit ((c / 4096) mod 16)) (hex_digit ((c / 256) mod 16))
       (hex_digit ((c / 16) mod 16)) (hex_digit (c mod 16)) = Some c.
Proof.
  unfold valid_unit, hex4. intros Hc.
  rewrite !hex_value_hex_digit by (apply N.mod_lt; discriminate).
  f_equal.
  pose proof (N.div_mod c 16 ltac:(discriminate)) as H1.
  pose proof (N.div_mod (c / 16) 16 ltac:(discriminate)) as H2.
  pose proof (N.div_mod (c / 16 / 16) 16 ltac:(discriminate)) as H3.
  assert (E256 : (c / 256 = c / 16 / 16)%N)
    by (rewrite N.Div0.div_div by discriminate; reflexivity).
  assert (E4096 : (c / 4096 = c / 16 / 16 / 16)%N)
    by (rewrite !N.Div0.div_div by discriminate; reflexivity).
  assert (Hs : (c / 16 / 16 / 16 < 16)%N).
  { rewrite !N.Div0.div_div by discriminate. apply N.Div0.div_lt_upper_bound. exact Hc. }
  rewrite E4096, E256.
  rewrite (N.mod_small (c / 16 / 16 / 16) 16 Hs). lia.
Qed.

Lemma escape_reads_back (c : code_unit) (rest cs tail : jsstring) :
  valid_unit c ->
  string_chars rest = Some (cs, tail) ->
  string_chars (unicode_escape c ++ rest) = Some (c :: cs, tail).
Proof.
  intros Hc Hr. unfold unicode_escape.
  cbn [app string_chars N.eqb Pos.eqb].
  rewrite (hex4_hex_digit Hc), Hr. reflexivity.
Qed.

Lemma unit_reads_back (c : code_unit) (rest cs tail : jsstring) :
  valid_unit c ->
  is_lead c = false ->
  string_chars rest = Some (cs, tail) ->
  string_chars (quote_unit c ++ rest) = Some (c :: cs, tail).
Proof.
  intros Hc Hl Hr. rewrite quote_unit_spec.
  repeat match goal with
         | |- context [(c =? ?k)%N] =>
             destruct (N.eqb_spec c k) as [->|?];
             [cbn; rewrite Hr; reflexivity|]
         end.
  destruct ((c <? 32)%N || is_trail c) eqn:E.
  - now apply escape_reads_back.
  - apply orb_false_iff in E as [E1 E2]. cbn [app string_chars].
    destruct (N.eqb_spec c 34); [contradiction|].
    destruct (N.eqb_spec c 92); [contradiction|].
    rewrite E1, Hr. reflexivity.
Qed.

Lemma surrogate_literal (c : code_unit) :
  (55296 <=? c)%N = true ->
  (c =? 34)%N = false /\ (c =? 92)%N = false /\ (c <? 32)%N = false.
Proof.
  intros H. apply N.leb_le in H.
  repeat split; [apply N.eqb_neq | apply N.eqb_neq | apply N.ltb_ge]; lia.
Qed.

(** A string literal written by [QuoteJSONString] is read back by
    [string_chars] as the string it was made from. *)
Lemma quote_chars_read_back (n : nat) :
  forall s tail,
    List.length s <= n -> valid_string s ->
    string_chars (quote_chars s ++ 34%N :: tail) = Some (s, tail).
Proof.
  induction n as [|n IH]; intros s tail Hn Hv.
  - destruct s; [reflexivity | simpl in Hn; lia].
  - destruct s as [|c s]; [reflexivity|].
    inversion Hv as [|x l Hc Hs]; subst. simpl in Hn.
    cbn [quote_chars]. destruct (is_lead c) eqn:El.
    + assert (Hlit : (55296 <=? c)%N = true).
      { unfold is_lead in El. now apply andb_true_iff in El as [? _]. }
      destruct s as [|d s].
      * now apply escape_reads_back.
      * cbn [quote_chars]. destruct (is_trail d) eqn:Et.
        -- inversion Hs as [|y l' Hd Hs']; subst.
           assert (Hlit' : (55296 <=? d)%N = true).
           { unfold is_trail in Et. apply andb_true_iff in Et as [Et _].
             apply N.leb_le in Et. apply N.leb_le. lia. }
           destruct (surrogate_literal _ Hlit) as (A1 & A2 & A3).
           destruct (surrogate_literal _ Hlit') as (B1 & B2 & B3).
           cbn [app string_chars]. rewrite A1, A2, A3, B1, B2, B3.
           rewrite IH; [reflexivity | simpl in Hn; lia | assumption].
        -- rewrite <- app_assoc. apply escape_reads_back; [assumption|].
           change (string_chars (quote_chars (d :: s) ++ 34%N :: tail)
                   = Some (d :: s, tail)).
           apply IH; [lia | assumption].
    + rewrite <- app_assoc. apply unit_reads_back; try assumption.
      apply IH; [lia | assumption].
Qed.

Lemma QuoteJSONString_reads_back (s tail : jsstring) :
  valid_string s ->
  string_chars (quote_chars s ++ 34%N :: tail) = Some (s, tail).
Proof. intros H. now apply quote_chars_read_back with (n := List.length s). Qed.

End StringRoundTrip.

Section FuelFacts.

Lemma parse_value_S (f : nat) (s : jsstring) :
  parse_value (S f) s
  = match skip_ws s with
    | [] => SyntaxError
    | c :: r =>
        if (c =? 123)%N then
          match after 125%N (skip_ws r) with
          | Some r' => Ok (JObj []) r'
          | None => parse_members f r []
          end
        else if (c =? 91)%N then
          match after 93%N (skip_ws r) with
          | Some r' => Ok (JArr []) r'
          | None => parse_elements f r []
          end
        else if (c =? 34)%N then
          match string_chars r with
          | Some (cs, r') => Ok (JStr cs) r'
          | None => SyntaxError
          end
        else if (c =? 110)%N then literal "null" JNull (c :: r)
        else if (c =? 116)%N then literal "true" (JBool true) (c :: r)
        else if (c =? 102)%N then literal "false" (JBool false) (c :: r)
        else
          match json_number (c :: r) with
          | Some (x, r') => Ok (JNum x) r'
          | None => SyntaxError
          end
    end.
Proof. simpl. destruct (skip_ws s); reflexivity. Qed.

Lemma parse_elements_S (f : nat) (s : jsstring) (acc : list jsvalue) :
  parse_elements (S f) s acc
  = match parse_value f s with
    | Ok v r =>
        match after 44%N (skip_ws r) with
        | Some r' => parse_elements f r' (acc ++ [v])
        | None =>
            match after 93%N (skip_ws r) with
            | Some r' => Ok (JArr (acc ++ [v])) r'
            | None => SyntaxError
            end
        end
    | SyntaxError => SyntaxError
    | OutOfFuel => OutOfFuel
    end.
Proof. reflexivity. Qed.

Lemma parse_members_S (f : nat) (s : jsstring)
      (acc : list (jsstring * jsvalue)) :
  parse_members (S f) s acc
  = match after 34%N (skip_ws s) with
    | None => SyntaxError
    | Some r =>
        match string_chars r with
        | None => SyntaxError
        | Some (key, r1) =>
            match after 58%N (skip_ws r1) with
            | None => SyntaxError
            | Some r2 =>
                match parse_value f r2 with
                | Ok v r3 =>
                    match after 44%N (skip_ws r3) with
                    | Some r4 => parse_members f r4 (set_own key v acc)
                    | None =>
                        match after 125%N (skip_ws r3) with
                        | Some r4 => Ok (JObj (set_own key v acc)) r4
                        | None => SyntaxError
                        end
                    end
                | SyntaxError => SyntaxError
                | OutOfFuel => OutOfFuel
                end
            end
        end
    end.
Proof. reflexivity. Qed.

(** An answer other than [OutOfFuel] stays the same with one more unit
    of fuel. *)
Lemma parse_one_more (f : nat) :
  (forall s res, parse_value f s = res -> res <> OutOfFuel ->
                 parse_value (S f) s = res)
  /\ (forall s acc res, parse_elements f s acc = res -> res <> OutOfFuel ->
                        parse_elements (S f) s acc = res)
  /\ (forall s acc res, parse_members f s acc = res -> res <> OutOfFuel ->
                        parse_members (S f) s acc = res).
Proof.
  induction f as [|f (IHv & IHe & IHm)].
  - repeat split; intros; subst; simpl in *; congruence.
  - split; [|split].
    + intros s res H Hne. rewrite parse_value_S in *.
      destruct (skip_ws s) as [|c r]; [assumption|].
      destruct (c =? 123)%N.
      { destruct (after 125%N (skip_ws r)); [assumption|]. now apply IHm. }
      destruct (c =? 91)%N.
      { destruct (after 93%N (skip_ws r)); [assumption|]. now apply IHe. }
      assumption.
    + intros s acc res H Hne. rewrite parse_elements_S in *.
      destruct (parse_value f s) as [v r| |] eqn:Ev.
      * rewrite (IHv _ _ Ev) by discriminate.
        destruct (after 44%N (skip_ws r)); [now apply IHe | assumption].
      * rewrite (IHv _ _ Ev) by discriminate. assumption.
      * congruence.
    + intros s acc res H Hne. rewrite parse_members_S in *.
      destruct (after 34%N (skip_ws s)) as [r|]; [|assumption].
      destruct (string_chars r) as [[key r1]|]; [|assumption].
      destruct (after 58%N (skip_ws r1)) as [r2|]; [|assumption].
      destruct (parse_value f r2) as [v r3| |] eqn:Ev.
      * rewrite (IHv _ _ Ev) by discriminate.
        destruct (after 44%N (skip_ws r3)); [now apply IHm | assumption].
      * rewrite (IHv _ _ Ev) by discriminate. assumption.
      * congruence.
Qed.

Lemma parse_value_more (f g : nat) (s : jsstring) (res : parsed jsvalue) :
  f <= g -> parse_value f s = res -> res <> OutOfFuel ->
  parse_value g s = res.
Proof.
  induction 1 as [|g Hle IH]; intros H Hne; [assumption|].
  apply (proj1 (parse_one_more g)); auto.
Qed.

Lemma parse_members_more (f g : nat) (s : jsstring)
      (acc : list (jsstring * jsvalue)) (res : parsed jsvalue) :
  f <= g -> parse_members f s acc = res -> res <> OutOfFuel ->
  parse_members g s acc = res.
Proof.
  induction 1 as [|g Hle IH]; intros H Hne; [assumption|].
  apply (proj2 (proj2 (parse_one_more g))); auto.
Qed.

(** Whatever some fuel reads from a text, [JSON_parse] reads. *)
Lemma JSON_parse_reads (f : nat) (text : jsstring) (v : jsvalue) :
  parse_value f text = Ok v [] -> JSON_parse text = Some v.
Proof.
  intros H. unfold JSON_parse.
  pose proof (JSON_parse_has_fuel text) as Hfuel.
  destruct (Nat.le_ge_cases f (2 * List.length text + 1)) as [Hle|Hge].
  - rewrite (@parse_value_more _ _ _ _ Hle H) by discriminate. reflexivity.
  - destruct (parse_value (2 * List.length text + 1) text) as [w r| |] eqn:E.
    + rewrite (@parse_value_more _ _ _ _ Hge E) in H by discriminate.
      injection H as -> ->. reflexivity.
    + rewrite (@parse_value_more _ _ _ _ Hge E) in H by discriminate. discriminate.
    + contradiction.
Qed.

End FuelFacts.

Section ObjectRoundTrip.

Lemma string_writable (s : jsstring) : valid_string s -> writable (JStr s).
Proof.
  intros Hs. exists (QuoteJSONString s). split; [reflexivity|].
  intros tail. exists 1. rewrite parse_value_S.
  unfold QuoteJSONString. cbn [app skip_ws is_json_ws N.eqb Pos.eqb orb].
  rewrite <- app_assoc. cbn [app].
  now rewrite QuoteJSONString_reads_back.
Qed.

Lemma set_own_fresh (k : jsstring) (v : jsvalue)
      (acc : list (jsstring * jsvalue)) :
  ~ In k (map fst acc) -> set_own k v acc = acc ++ [(k, v)].
Proof.
  induction acc as [|[k' w] acc IH]; simpl; intros H; [reflexivity|].
  destruct (jseqb k' k) eqn:E.
  - apply jseqb_eq in E. subst. exfalso. apply H. now left.
  - rewrite IH; [reflexivity|]. intros Hin. apply H. now right.
Qed.

Lemma fold_set_own (kvs acc : list (jsstring * jsvalue)) :
  NoDup (map fst (acc ++ kvs)) ->
  fold_left (fun a kv => set_own (fst kv) (snd kv) a) kvs acc = acc ++ kvs.
Proof.
  revert acc. induction kvs as [|[k v] kvs IH]; intros acc H; simpl.
  - now rewrite app_nil_r.
  - rewrite set_own_fresh.
    + rewrite IH; rewrite <- app_assoc; [reflexivity | exact H].
    + rewrite map_app in H. simpl in H. apply NoDup_remove_2 in H.
      intros Hin. apply H. apply in_or_app. now left.
Qed.

Lemma member_text_head (kv : jsstring * jsvalue) :
  exists r, member_text kv = 34%N :: r.
Proof. unfold member_text, QuoteJSONString. simpl. eauto. Qed.

Lemma members_read_back (kvs : list (jsstring * jsvalue)) :
  kvs <> [] ->
  (forall kv, In kv kvs -> valid_string (fst kv) /\ writable (snd kv)) ->
  forall acc tail, exists f,
    parse_members f (join (str ",") (map member_text kvs) ++ 125%N :: tail)
                  acc
    = Ok (JObj (fold_left (fun a kv => set_own (fst kv) (snd kv) a) kvs acc))
         tail.
Proof.
  induction kvs as [|[k v] kvs IH]; [congruence|]. intros _ Hall acc tail.
  destruct (Hall (k, v) (or_introl eq_refl)) as (Hk & t & Ht & Hback).
  simpl fst in *. simpl snd in *.
  assert (Hm : forall rest,
             member_text (k, v) ++ rest
             = 34%N :: quote_chars k ++ 34%N :: 58%N :: t ++ rest).
  { intros rest. unfold member_text, QuoteJSONString. simpl fst. simpl snd.
    rewrite Ht. cbn [str list_ascii_of_string map N_of_ascii].
    rewrite <- !app_assoc. cbn [app]. rewrite <- !app_assoc. reflexivity. }
  destruct kvs as [|kv2 kvs].
  - destruct (Hback (125%N :: tail)) as (f0 & Hf0).
    exists (S f0). rewrite parse_members_S. cbn [map join].
    rewrite Hm. cbn [skip_ws is_json_ws N.eqb Pos.eqb orb after cu_eqb].
    rewrite (QuoteJSONString_reads_back _ Hk).
    cbn [skip_ws is_json_ws N.eqb Pos.eqb orb after cu_eqb].
    rewrite Hf0.
    cbn [skip_ws is_json_ws N.eqb Pos.eqb orb after cu_eqb fold_left fst snd].
    reflexivity.
  - destruct (IH ltac:(discriminate)
                 (fun kv H => Hall kv (or_intror H))
                 (set_own k v acc) tail) as (f1 & Hf1).
    destruct (Hback (44%N :: join (str ",") (map member_text (kv2 :: kvs))
                          ++ 125%N :: tail)) as (f0 & Hf0).
    exists (S (Nat.max f0 f1)). rewrite parse_members_S.
    change (join (str ",") (map member_text ((k, v) :: kv2 :: kvs)))
      with (member_text (k, v) ++ str ","
            ++ join (str ",") (map member_text (kv2 :: kvs))).
    rewrite <- !app_assoc. rewrite Hm.
    cbn [skip_ws is_json_ws N.eqb Pos.eqb orb after cu_eqb].
    rewrite (QuoteJSONString_reads_back _ Hk).
    cbn [skip_ws is_json_ws N.eqb Pos.eqb orb after cu_eqb].
    change (str "," ++ join (str ",") (map member_text (kv2 :: kvs))
            ++ 125%N :: tail)
      with (44%N :: join (str ",") (map member_text (kv2 :: kvs))
            ++ 125%N :: tail).
    rewrite (@parse_value_more f0 _ _ _ (Nat.le_max_l f0 f1) Hf0)
      by discriminate.
    cbn [skip_ws is_json_ws N.eqb Pos.eqb orb after cu_eqb].
    rewrite (@parse_members_more f1 _ _ _ _ (Nat.le_max_r f0 f1) Hf1)
      by discriminate.
    reflexivity.
Qed.

End ObjectRoundTrip.

Section StoreRoundTrip.

Lemma index_fold_plain (A : Type) (l : list (jsstring * A))
      (acc : list (Z * (jsstring * A))) :
  (forall kv, In kv l -> array_index (fst kv) = None) ->
  fold_left (fun acc kv =>
               match array_index (fst kv) with
               | Some i => insert_index i kv acc
               | None => acc
               end) l acc = acc.
Proof.
  revert acc. induction l as [|kv l IH]; intros acc H; simpl; [reflexivity|].
  rewrite (H kv (or_introl eq_refl)). apply IH.
  intros kv' Hin. apply H. now right.
Qed.

Lemma index_filter_plain (A : Type) (l : list (jsstring * A)) :
  (forall kv, In kv l -> array_index (fst kv) = None) ->
  filter (fun kv => match array_index (fst kv) with
                    | Some _ => false
                    | None => true
                    end) l = l.
Proof.
  induction l as [|kv l IH]; intros H; simpl; [reflexivity|].
  rewrite (H kv (or_introl eq_refl)). f_equal. apply IH.
  intros kv' Hin. apply H. now right.
Qed.

Lemma own_keys_order_plain (A : Type) (l : list (jsstring * A)) :
  (forall kv, In kv l -> array_index (fst kv) = None) ->
  own_keys_order l = l.
Proof.
  intros H. unfold own_keys_order.
  rewrite index_fold_plain by assumption.
  rewrite index_filter_plain by assumption. reflexivity.
Qed.

Lemma stringify_object (ps : list (jsstring * jsvalue)) :
  (forall kv, In kv ps ->
              array_index (fst kv) = None
              /\ exists t, JSON_stringify (snd kv) = Some t) ->
  JSON_stringify (JObj ps)
  = Some (123%N :: join (str ",") (map member_text ps) ++ [125%N]).
Proof.
  intros H. cbn [JSON_stringify].
  rewrite own_keys_order_plain.
  2:{ intros kv Hin. apply in_map_iff in Hin as (kv0 & <- & Hin).
      simpl. now apply H. }
  f_equal. cbn [str list_ascii_of_string map N_of_ascii app]. f_equal.
  f_equal. f_equal.
  induction ps as [|kv ps IH]; simpl; [reflexivity|].
  destruct (H kv (or_introl eq_refl)) as (_ & t & Ht).
  unfold member_text at 1. rewrite Ht. simpl. f_equal.
  apply IH. intros kv' Hin. apply H. now right.
Qed.

(** An object with distinct plain keys and values that are read back is
    read back itself. *)
Lemma object_writable (ps : list (jsstring * jsvalue)) :
  NoDup (map fst ps) ->
  (forall kv, In kv ps -> plain_key (fst kv) /\ writable (snd kv)) ->
  writable (JObj ps).
Proof.
  intros Hnd Hall.
  exists (123%N :: join (str ",") (map member_text ps) ++ [125%N]). split.
  - apply stringify_object. intros kv Hin.
    destruct (Hall kv Hin) as ((_ & Hk) & t & Ht & _). eauto.
  - intros tail. destruct ps as [|kv ps].
    + exists 1. reflexivity.
    + destruct (@members_read_back (kv :: ps) ltac:(discriminate)
                  (fun kv' H => conj (proj1 (proj1 (Hall kv' H)))
                                     (proj2 (Hall kv' H)))
                  [] tail) as (f & Hf).
      rewrite (@fold_set_own (kv :: ps) [] Hnd) in Hf.
      destruct (member_text_head kv) as (r & Hr).
      assert (Hhead : exists r', join (str ",") (map member_text (kv :: ps))
                                 ++ 125%N :: tail = 34%N :: r').
      { cbn [map]. destruct (map member_text ps); cbn [join]; rewrite Hr;
          simpl; eauto. }
      destruct Hhead as (r' & Hr').
      exists (S f).
      match goal with
      | |- parse_value _ ?x = _ =>
          assert (E : x = 123%N :: 34%N :: r')
      end.
      { cbn [app]. rewrite <- app_assoc. cbn [app]. f_equal. exact Hr'. }
      match type of Hf with
      | parse_members _ ?y _ = _ => assert (E2 : y = 34%N :: r') by exact Hr'
      end.
      rewrite E. rewrite E2 in Hf. rewrite parse_value_S.
      cbn [skip_ws is_json_ws N.eqb Pos.eqb orb after cu_eqb]. exact Hf.
Qed.

End StoreRoundTrip.

(* ------------------------------------------------------------------ *)
(** ** Registrations, logins and the stored accounts *)

Section AccountStore.
Context {R : Runtime}.

Lemma valid_literal (w : string) : valid_string (str w).
Proof.
  unfold valid_string, str. apply Forall_forall. intros c Hin.
  apply in_map_iff in Hin as (a & <- & _). unfold valid_unit.
  pose proof (N_ascii_bounded a). lia.
Qed.

Lemma span_digits_all (k : jsstring) (ds : list Z) :
  span_digits k = (ds, []) -> Forall (fun c => is_digit c = true) k.
Proof.
  revert ds. induction k as [|c k IH]; intros ds; simpl; [constructor|].
  destruct (is_digit c) eqn:E; [|discriminate].
  destruct (span_digits k) as [ds' r] eqn:Es. intros [= <- ->].
  constructor; [assumption | eapply IH; reflexivity].
Qed.

Lemma at_sign_plain (k : jsstring) : In at_sign k -> array_index k = None.
Proof.
  intros Hat. unfold array_index.
  destruct (span_digits k) as [ds r] eqn:E.
  destruct r as [|c r].
  - apply span_digits_all in E. rewrite Forall_forall in E.
    specialize (E _ Hat). discriminate.
  - destruct ds as [|d ds]; [reflexivity|].
    destruct d; try reflexivity. destruct ds; reflexivity.
Qed.

Lemma account_writable (n e p : jsstring) :
  valid_string n -> valid_string e -> valid_string p ->
  writable (account n e p).
Proof.
  intros Hn He Hp. unfold account. apply object_writable.
  - simpl. repeat constructor; simpl; intuition discriminate.
  - intros kv [<-|[<-|[<-|[]]]]; simpl;
      (split; [split; [apply valid_literal | reflexivity]
              | now apply string_writable]).
Qed.

Lemma stored_accounts_writable (ps : list (jsstring * jsvalue)) :
  stored_accounts ps -> writable (JObj ps).
Proof.
  intros (Hnd & Hall). rewrite Forall_forall in Hall.
  apply object_writable; [assumption|].
  intros kv Hin. destruct (Hall kv Hin) as (Hk & Hat & n & e & p & -> & H).
  split; [split; [assumption | now apply at_sign_plain]|].
  apply account_writable; tauto.
Qed.

Lemma writable_round_trip (v : jsvalue) (ls : storage) :
  writable v -> truthy_value v = true -> getUsers (saveUsers v ls) = v.
Proof.
  intros (t & Ht & Hback) Htrue. unfold getUsers, saveUsers. simpl.
  rewrite Ht. destruct (Hback []) as (f & Hf). rewrite app_nil_r in Hf.
  rewrite (JSON_parse_reads _ _ Hf). unfold or_value. now rewrite Htrue.
Qed.

End AccountStore.

Section AuthRuns.
Context {R : Runtime}.

Lemma trim_start_valid (s : jsstring) :
  valid_string s -> valid_string (trim_start s).
Proof.
  induction s as [|c s IH]; intros H; simpl; [assumption|].
  destruct (is_white_space c); [|assumption].
  inversion H; subst. now apply IH.
Qed.

Lemma trim_valid (s : jsstring) : valid_string s -> valid_string (trim s).
Proof.
  intros H. unfold trim, trim_end, valid_string.
  apply Forall_rev. apply trim_start_valid. apply Forall_rev.
  now apply trim_start_valid.
Qed.

Lemma own_not_In (key : jsstring) (ps : list (jsstring * jsvalue)) :
  own key ps = None -> ~ In key (map fst ps).
Proof.
  intros H Hin. apply in_map_iff in Hin as ([k v] & E & Hin). simpl in E.
  subst k. eapply own_None; eassumption.
Qed.

Lemma own_app_fresh (key : jsstring) (v : jsvalue)
      (ps : list (jsstring * jsvalue)) :
  own key ps = None -> own key (ps ++ [(key, v)]) = Some v.
Proof.
  induction ps as [|[k w] ps IH]; simpl; intros H.
  - now rewrite jseqb_refl.
  - destruct (jseqb k key); [discriminate | now apply IH].
Qed.

Lemma own_app_other (key k : jsstring) (v : jsvalue)
      (ps : list (jsstring * jsvalue)) :
  k <> key -> own k (ps ++ [(key, v)]) = own k ps.
Proof.
  intros Hne. induction ps as [|[k' w] ps IH]; simpl.
  - destruct (jseqb key k) eqn:E; [|reflexivity].
    apply jseqb_eq in E. congruence.
  - destruct (jseqb k' k); [reflexivity | assumption].
Qed.

Lemma getUsers_session (email : jsstring) (ls : storage) :
  getUsers (set_currentUser email ls) = getUsers ls.
Proof. reflexivity. Qed.

(** What a registration does to a store of accounts. *)
Lemma registerUser_store (name id pw : jsstring) (b : browser)
      (ps : list (jsstring * jsvalue)) :
  supabase b = false ->
  getUsers (localStorage b) = JObj ps ->
  stored_accounts ps ->
  valid_string name -> valid_string pw ->
  valid_string (normalize id) -> In at_sign (normalize id) ->
  let b' := registerUser name id pw b in
  let entry := (normalize id, account (trim name) (normalize id) pw) in
  (own (normalize id) ps = None ->
   ~ duplicate_account b'
   /\ getUsers (localStorage b') = JObj (ps ++ [entry])
   /\ stored_accounts (ps ++ [entry]))
  /\ (own (normalize id) ps <> None ->
      duplicate_account b' /\ localStorage b' = localStorage b).
Proof.
  intros Hs Hu Hacc Hn Hp Hk Hat. cbv zeta. split.
  - intros Hnone.
    assert (Hfresh : ~ In (normalize id) (map fst ps))
      by now apply own_not_In.
    assert (Hacc' : stored_accounts
                      (ps ++ [(normalize id,
                               account (trim name) (normalize id) pw)])).
    { destruct Hacc as (Hnd & Hall). split.
      - rewrite map_app. simpl. apply NoDup_app; [assumption | | ].
        + repeat constructor. intros [].
        + intros k Hin [<-|[]]. contradiction.
      - apply Forall_app. split; [assumption|]. repeat constructor; simpl;
          try assumption.
        exists (trim name), (normalize id), pw.
        repeat split; try assumption. now apply trim_valid. }
    unfold registerUser, duplicate_account. rewrite Hs, Hu. simpl get.
    rewrite Hnone, (at_sign_not_inherited _ Hat). simpl.
    split; [discriminate|]. split; [|exact Hacc'].
    rewrite set_own_fresh by exact Hfresh.
    apply writable_round_trip; [|reflexivity].
    now apply stored_accounts_writable.
  - intros Hsome. unfold registerUser, duplicate_account. rewrite Hs, Hu.
    simpl get. destruct (own (normalize id) ps) as [w|] eqn:E; [|congruence].
    destruct Hacc as (_ & Hall). rewrite Forall_forall in Hall.
    destruct (Hall _ (own_In _ _ E)) as (_ & _ & n & e & p & Hw & _).
    simpl in Hw. subst w. simpl. split; reflexivity.
Qed.

End AuthRuns.

Section AuthRunsMore.
Context {R : Runtime}.

Lemma registerUser_supabase (name id pw : jsstring) (b : browser) :
  supabase (registerUser name id pw b) = supabase b.
Proof.
  unfold registerUser. destruct (supabase b) eqn:E; [simpl; congruence|].
  destruct (truthy_value _); simpl; congruence.
Qed.

Lemma loginUser_supabase (id pw : jsstring) (b : browser) :
  supabase (loginUser id pw b) = supabase b.
Proof.
  unfold loginUser. destruct (supabase b) eqn:E; [simpl; congruence|].
  destruct (_ || _); simpl; congruence.
Qed.

Lemma loginUser_users (id pw : jsstring) (b : browser) :
  users_item (localStorage (loginUser id pw b)) = users_item (localStorage b).
Proof.
  unfold loginUser. destruct (supabase b); [reflexivity|].
  destruct (_ || _); reflexivity.
Qed.

Lemma getUsers_users_item (ls ls' : storage) :
  users_item ls = users_item ls' -> getUsers ls = getUsers ls'.
Proof. unfold getUsers. now intros ->. Qed.

Lemma has_new_account (name key pw : jsstring)
      (ps : list (jsstring * jsvalue)) (pw' : jsstring) :
  own key ps = None ->
  has_account key pw' (ps ++ [(key, account name key pw)]) <-> pw' = pw.
Proof.
  intros Hnone. unfold has_account. rewrite own_app_fresh by exact Hnone. split.
  - intros (fields & [= <-] & H). simpl in H. congruence.
  - intros ->. eexists. split; reflexivity.
Qed.

Lemma has_old_account (name key pw k pw' : jsstring)
      (ps : list (jsstring * jsvalue)) :
  own key ps = None ->
  has_account k pw' ps ->
  has_account k pw' (ps ++ [(key, account name key pw)]).
Proof.
  intros Hnone (fields & Hk & Hp). exists fields. split; [|assumption].
  rewrite own_app_other; [assumption|]. intros ->. congruence.
Qed.

End AuthRunsMore.

Section Examples.

Lemma alice_accounts_stored : stored_accounts alice_accounts.
Proof.
  split.
  - simpl. repeat constructor. intros [].
  - constructor; [|constructor]. simpl.
    split; [apply (valid_literal "a@x.com")|].
    split; [vm_compute; tauto|].
    exists (str "Alice"), (str "a@x.com"), (str "pw1").
    repeat split; apply valid_literal.
Qed.

Lemma bob_can_register : bob_registers.
Proof.
  unfold bob_registers, fresh_registration.
  split; [reflexivity|]. split; [reflexivity|].
  split; [apply alice_accounts_stored|].
  split; [apply valid_literal|]. split; [apply valid_literal|].
  split; [apply (valid_literal "bob@x.com")|].
  split; [vm_compute; tauto | reflexivity].
Qed.

End Examples.

(** X1.  What [saveUsers] writes, [getUsers] reads back: a map of accounts
    with distinct keys, each holding an [@], passes through
    [JSON.stringify], the storage and [JSON.parse] unchanged, its keys in
    their order. *)
Theorem saved_accounts_read_back (ps : list (jsstring * jsvalue))
        (ls : storage) :
  stored_accounts ps -> getUsers (saveUsers (JObj ps) ls) = JObj ps.
Proof.
  intros H. apply writable_round_trip; [|reflexivity].
  now apply stored_accounts_writable.
Qed.

(** The map that holds Alice's account is read back as it was saved. *)
Lemma saved_accounts_read_back_alice :
  getUsers (saveUsers (JObj alice_accounts) (localStorage new_browser))
  = JObj alice_accounts.
Proof. apply saved_accounts_read_back. apply alice_accounts_stored. Defined.

(** X2.  A registration that is accepted appends the new account, under the
    trimmed and lower-cased identifier and with the trimmed name, to the map
    as it is read back from the storage; every other key answers as before;
    the session points at the new identifier and the address is that of the
    voice page. *)
Theorem register_adds_account {R : Runtime} (name id pw : jsstring)
        (b : browser) (ps : list (jsstring * jsvalue)) :
  fresh_registration b ps name id pw ->
  let b' := registerUser name id pw b in
  let acct := account (trim name) (normalize id) pw in
  getUsers (localStorage b') = JObj (ps ++ [(normalize id, acct)])
  /\ get (getUsers (localStorage b')) (normalize id) = acct
  /\ (forall k, k <> normalize id ->
                get (getUsers (localStorage b')) k = get (JObj ps) k)
  /\ currentUser_item (localStorage b') = Some (normalize id)
  /\ location b' = str "voice.html".
Proof.
  intros (Hs & Hu & Hacc & Hn & Hp & Hk & Hat & Hnone). cbv zeta.
  destruct (proj1 (@registerUser_store R name id pw b ps
                                       Hs Hu Hacc Hn Hp Hk Hat)
                  Hnone) as (Hnd & Hget & _).
  rewrite Hget. split; [reflexivity|]. split; [|split].
  - simpl. rewrite own_app_fresh by exact Hnone. reflexivity.
  - intros k Hne. simpl. rewrite own_app_other by exact Hne. reflexivity.
  - unfold registerUser in *. rewrite Hs, Hu in *. simpl get in *.
    rewrite Hnone, (at_sign_not_inherited _ Hat) in *. simpl. auto.
Qed.

(** Bob registers after Alice: the store holds both accounts, Alice's
    first. *)
Lemma register_adds_account_bob :
  getUsers (localStorage
              (registerUser (R := ascii_runtime) (str "Bob")
                            (str " Bob@X.com") (str "pw2") alice_browser))
  = JObj (alice_accounts
          ++ [(str "bob@x.com",
               account (str "Bob") (str "bob@x.com") (str "pw2"))]).
Proof.
  exact (proj1 (@register_adds_account ascii_runtime (str "Bob")
                  (str " Bob@X.com") (str "pw2") alice_browser
                  alice_accounts bob_can_register)).
Defined.

(** X3.  Without a provider, let an identifier with an [@] that is not
    yet a key of the stored account map be registered.  Then a login under
    any identifier with the same stored form (trimmed and lower-cased) and
    with the same password succeeds, and after a logout it points the
    session at the stored identifier again and opens the voice page; with
    any other password it fails, and after a logout leaves the session
    empty.  On a host that lowers ASCII text as ECMAScript does, this
    covers every ASCII identifier whose trimmed form differs from that of
    the registered one only in the case of its letters. *)
Theorem register_then_login {R : Runtime} (name id pw : jsstring)
        (b : browser) (ps : list (jsstring * jsvalue)) :
  fresh_registration b ps name id pw ->
  let b' := registerUser name id pw b in
  (forall id', normalize id' = normalize id ->
               loginUser id' pw b' = login_ok (normalize id) b'
               /\ currentUser_item
                    (localStorage (loginUser id' pw (logoutUser b')))
                  = Some (normalize id)
               /\ location (loginUser id' pw (logoutUser b'))
                  = str "voice.html")
  /\ (forall id' pw', normalize id' = normalize id -> pw' <> pw ->
                      loginUser id' pw' b' = login_failed b'
                      /\ currentUser_item
                           (localStorage
                              (loginUser id' pw' (logoutUser b')))
                         = None
                      /\ hidden (loginError
                                   (loginUser id' pw' (logoutUser b')))
                         = false)
  /\ (lowers_ascii R ->
      forall id', plain_text id -> plain_text id' ->
                  map ascii_lower (trim id') = map ascii_lower (trim id) ->
                  loginUser id' pw b' = login_ok (normalize id) b').
Proof.
  intros (Hs & Hu & Hacc & Hn & Hp & Hk & Hat & Hnone). cbv zeta.
  destruct (proj1 (@registerUser_store R name id pw b ps
                                       Hs Hu Hacc Hn Hp Hk Hat)
                  Hnone) as (_ & Hget & _).
  assert (Hs' : supabase (registerUser name id pw b) = false)
    by now rewrite registerUser_supabase.
  assert (Hget' : getUsers (localStorage
                              (logoutUser (registerUser name id pw b)))
                  = JObj (ps ++ [(normalize id,
                                  account (trim name) (normalize id) pw)]))
    by exact Hget.
  assert (Hok : forall id', normalize id' = normalize id ->
                  loginUser id' pw (registerUser name id pw b)
                  = login_ok (normalize id) (registerUser name id pw b)).
  { intros id' E.
    destruct (@loginUser_decides R id' pw _ _ Hs' Hget) as (Hok & _).
    rewrite E in Hok. apply Hok. now apply has_new_account. }
  split; [|split].
  - intros id' E. split; [now apply Hok|].
    destruct (@loginUser_decides R id' pw
                (logoutUser (registerUser name id pw b)) _ Hs' Hget')
      as (Hok' & _).
    rewrite E in Hok'. rewrite Hok' by now apply has_new_account.
    split; reflexivity.
  - intros id' pw' E Hne.
    assert (Hno : ~ has_account (normalize id') pw'
                    (ps ++ [(normalize id,
                             account (trim name) (normalize id) pw)])).
    { rewrite E. intros H. apply has_new_account in H; auto. }
    split.
    + now apply (proj2 (@loginUser_decides R id' pw' _ _ Hs' Hget)).
    + rewrite (proj2 (@loginUser_decides R id' pw'
                        (logoutUser (registerUser name id pw b)) _
                        Hs' Hget') Hno).
      split; reflexivity.
  - intros HR id' Hid Hid' E. apply Hok.
    rewrite !(normalize_plain HR) by assumption. exact E.
Qed.

(** Bob registers, logs out, and logs in again, writing his identifier
    differently. *)
Lemma register_then_login_bob :
  let b' := registerUser (R := ascii_runtime) (str "Bob")
                         (str " Bob@X.com") (str "pw2") alice_browser in
  loginUser (R := ascii_runtime) (str "BOB@x.com ") (str "pw2") b'
  = login_ok (str "bob@x.com") b'
  /\ currentUser_item (localStorage (logoutUser b')) = None
  /\ currentUser_item
       (localStorage (loginUser (R := ascii_runtime) (str "BOB@x.com ")
                                (str "pw2") (logoutUser b')))
     = Some (str "bob@x.com").
Proof.
  cbv zeta.
  destruct (proj1 (@register_then_login ascii_runtime (str "Bob")
                     (str " Bob@X.com") (str "pw2") alice_browser
                     alice_accounts bob_can_register)
                  (str "BOB@x.com ") eq_refl) as (_ & H2 & _).
  split; [|split; [reflexivity | exact H2]].
  apply (proj2 (proj2 (@register_then_login ascii_runtime (str "Bob")
                         (str " Bob@X.com") (str "pw2") alice_browser
                         alice_accounts bob_can_register))
               ascii_runtime_lowers (str "BOB@x.com "));
    [vm_compute; repeat constructor | vm_compute; repeat constructor
    | reflexivity].
Defined.

(** X4.  Without a provider, let an identifier with an [@] that is not
    yet a key of the stored account map be registered.  Then every
    further registration under an identifier with the same stored form
    (trimmed and lower-cased), whatever name and password come with it, is
    refused and leaves the storage as it was.  On a host that lowers ASCII
    text as ECMAScript does, this covers every ASCII identifier whose
    trimmed form differs from that of the registered one only in the case
    of its letters. *)
Theorem register_twice_refused {R : Runtime} (name id pw : jsstring)
        (b : browser) (ps : list (jsstring * jsvalue)) :
  fresh_registration b ps name id pw ->
  let b' := registerUser name id pw b in
  (forall name2 id2 pw2,
     normalize id2 = normalize id ->
     duplicate_account (registerUser name2 id2 pw2 b')
     /\ localStorage (registerUser name2 id2 pw2 b') = localStorage b')
  /\ (lowers_ascii R ->
      forall name2 id2 pw2,
        plain_text id -> plain_text id2 ->
        map ascii_lower (trim id2) = map ascii_lower (trim id) ->
        duplicate_account (registerUser name2 id2 pw2 b')
        /\ localStorage (registerUser name2 id2 pw2 b') = localStorage b').
Proof.
  intros (Hs & Hu & Hacc & Hn & Hp & Hk & Hat & Hnone). cbv zeta.
  destruct (proj1 (@registerUser_store R name id pw b ps
                                       Hs Hu Hacc Hn Hp Hk Hat)
                  Hnone) as (_ & Hget & _).
  assert (Hs' : supabase (registerUser name id pw b) = false)
    by now rewrite registerUser_supabase.
  assert (Hdup : forall name2 id2 pw2,
             normalize id2 = normalize id ->
             duplicate_account
               (registerUser name2 id2 pw2 (registerUser name id pw b))
             /\ localStorage
                  (registerUser name2 id2 pw2 (registerUser name id pw b))
                = localStorage (registerUser name id pw b)).
  { intros name2 id2 pw2 E.
    unfold registerUser at 1 3, duplicate_account.
    rewrite Hs', Hget, E. simpl get.
    rewrite own_app_fresh by exact Hnone. simpl. split; reflexivity. }
  split; [exact Hdup|].
  intros HR name2 id2 pw2 Hid Hid2 E. apply Hdup.
  rewrite !(normalize_plain HR) by assumption. exact E.
Qed.

(** Robert cannot take the identifier Bob has just registered. *)
Lemma register_twice_refused_bob :
  duplicate_account
    (registerUser (R := ascii_runtime) (str "Robert") (str "BOB@X.COM")
                  (str "other")
       (registerUser (R := ascii_runtime) (str "Bob")
                     (str " Bob@X.com") (str "pw2") alice_browser)).
Proof.
  refine (proj1 (proj2 (@register_twice_refused ascii_runtime (str "Bob")
                          (str " Bob@X.com") (str "pw2") alice_browser
                          alice_accounts bob_can_register)
                       ascii_runtime_lowers
                       (str "Robert") (str "BOB@X.COM") (str "other")
                       _ _ eq_refl));
    vm_compute; repeat constructor.
Defined.

(** X5.  Without a provider, let an identifier with an [@] that is not
    yet a key of the stored account map be registered.  The accounts that
    were there are not disturbed: an identifier and password that logged in
    before log in afterwards, and the login points the session at that
    identifier. *)
Theorem register_keeps_other_logins {R : Runtime} (name id pw : jsstring)
        (b : browser) (ps : list (jsstring * jsvalue)) :
  fresh_registration b ps name id pw ->
  let b' := registerUser name id pw b in
  forall id0 pw0,
    has_account (normalize id0) pw0 ps ->
    loginUser id0 pw0 b' = login_ok (normalize id0) b'
    /\ currentUser_item (localStorage (loginUser id0 pw0 b'))
       = Some (normalize id0)
    /\ location (loginUser id0 pw0 b') = str "voice.html".
Proof.
  intros (Hs & Hu & Hacc & Hn & Hp & Hk & Hat & Hnone). cbv zeta.
  destruct (proj1 (@registerUser_store R name id pw b ps
                                       Hs Hu Hacc Hn Hp Hk Hat)
                  Hnone) as (_ & Hget & _).
  assert (Hs' : supabase (registerUser name id pw b) = false)
    by now rewrite registerUser_supabase.
  intros id0 pw0 Hhas.
  rewrite (proj1 (@loginUser_decides R id0 pw0 _ _ Hs' Hget))
    by now apply has_old_account.
  repeat split.
Qed.

(** Alice can still log in after Bob has registered, and the session
    becomes hers. *)
Lemma register_keeps_other_logins_alice :
  let b' := registerUser (R := ascii_runtime) (str "Bob")
                         (str " Bob@X.com") (str "pw2") alice_browser in
  currentUser_item (localStorage b') = Some (str "bob@x.com")
  /\ currentUser_item
       (localStorage (loginUser (R := ascii_runtime) (str "a@x.com")
                                (str "pw1") b'))
     = Some (str "a@x.com").
Proof.
  cbv zeta. split; [reflexivity|].
  apply (@register_keeps_other_logins ascii_runtime (str "Bob")
           (str " Bob@X.com") (str "pw2") alice_browser
           alice_accounts bob_can_register (str "a@x.com") (str "pw1")).
  eexists. split; reflexivity.
Defined.

Section Invariant.
Context {R : Runtime}.

Lemma stored_accounts_map (ps : list (jsstring * jsvalue)) :
  stored_accounts ps -> account_map ps.
Proof.
  intros (_ & H). unfold account_map. apply Forall_impl with (2 := H).
  intros kv (_ & _ & n & e & p & -> & _). eexists. reflexivity.
Qed.

Lemma logoutUser_users (b : browser) :
  users_item (localStorage (logoutUser b)) = users_item (localStorage b).
Proof. reflexivity. Qed.

Lemma logoutUser_supabase (b : browser) :
  supabase (logoutUser b) = supabase b.
Proof. reflexivity. Qed.

End Invariant.

(** X6.  Whatever registrations, logins and logouts a visitor goes through
    without a provider, starting from a missing or unreadable [users]
    entry: the store reads back as a map of well-formed accounts with
    distinct keys. *)
Theorem visited_store_holds_accounts {R : Runtime} (b : browser) :
  visited b ->
  supabase b = false
  /\ exists ps, getUsers (localStorage b) = JObj ps
                /\ stored_accounts ps /\ account_map ps.
Proof.
  induction 1 as [b Hs Hbad
                 |b name id pw _ (Hs & ps & Hu & Hacc & _) Hn Hp Hk Hat
                 |b id pw _ (Hs & ps & Hu & Hacc & Hmap)
                 |b _ (Hs & ps & Hu & Hacc & Hmap)].
  - split; [assumption|]. exists []. split; [now apply getUsers_unreadable|].
    split; [split; constructor | constructor].
  - split; [now rewrite registerUser_supabase|].
    destruct (@registerUser_store R name id pw b ps Hs Hu Hacc Hn Hp Hk Hat)
      as (Hnew & Hold).
    destruct (own (normalize id) ps) as [w|] eqn:E.
    + destruct (Hold ltac:(discriminate)) as (_ & Hls). rewrite Hls.
      exists ps. auto using stored_accounts_map.
    + destruct (Hnew eq_refl) as (_ & Hget & Hacc').
      eexists. split; [exact Hget|]. auto using stored_accounts_map.
  - split; [now rewrite loginUser_supabase|]. exists ps.
    rewrite (getUsers_users_item _ _ (loginUser_users id pw b)). auto.
  - split; [now rewrite logoutUser_supabase|]. exists ps.
    rewrite (getUsers_users_item _ _ (logoutUser_users b)). auto.
Qed.

(** The browser in which Alice registered. *)
Lemma visited_store_holds_accounts_alice :
  exists ps, getUsers (localStorage alice_browser) = JObj ps
             /\ stored_accounts ps /\ account_map ps.
Proof.
  apply (@visited_store_holds_accounts ascii_runtime alice_browser).
  unfold alice_browser. apply visit_register.
  - apply visit_start; [reflexivity | now left].
  - apply valid_literal.
  - apply valid_literal.
  - apply (valid_literal "a@x.com").
  - vm_compute. tauto.
Defined.

(** X7.  Logging out a second time changes nothing, and logging out
    removes the session only: an account that could log in before can log
    in afterwards. *)
Theorem logout_keeps_accounts {R : Runtime} (b : browser) :
  let b' := logoutUser b in
  logoutUser b' = b'
  /\ (forall id pw ps,
        supabase b = false ->
        getUsers (localStorage b) = JObj ps ->
        has_account (normalize id) pw ps ->
        loginUser id pw b' = login_ok (normalize id) b').
Proof.
  cbv zeta. split; [reflexivity|].
  intros id pw ps Hs Hu Hhas.
  refine (proj1 (@loginUser_decides R id pw _ ps _ _) Hhas).
  - exact Hs.
  - exact Hu.
Qed.

(** Alice logs out and in again. *)
Lemma logout_keeps_accounts_alice :
  loginUser (R := ascii_runtime) (str "a@x.com") (str "pw1")
            (logoutUser alice_browser)
  = login_ok (str "a@x.com") (logoutUser alice_browser).
Proof.
  refine (proj2 (@logout_keeps_accounts ascii_runtime alice_browser)
            (str "a@x.com") (str "pw1") alice_accounts eq_refl eq_refl _).
  eexists. split; reflexivity.
Defined.

Lemma register_adds_account_pointer {R : Runtime} (name id pw : jsstring)
      (b : browser) (ps : list (jsstring * jsvalue)) :
  fresh_registration b ps name id pw ->
  currentUser_item (localStorage (registerUser name id pw b))
  = Some (normalize id)
  /\ supabase (registerUser name id pw b) = false.
Proof.
  intros (Hs & Hu & _ & _ & _ & _ & Hat & Hnone).
  split; [|now rewrite registerUser_supabase].
  unfold registerUser. rewrite Hs, Hu. simpl get.
  rewrite Hnone, (at_sign_not_inherited _ Hat). reflexivity.
Qed.

(** X8.  Without a provider and with an object for [getUsers] to answer,
    let a registration not be refused.  Then the guard of the dashboard lets
    the visitor in when the stored form of the identifier (trimmed and
    lower-cased) is not empty, and sends the visitor to the login page when
    it is empty: a blank identifier registers and is then kept out.  After
    the logout that follows, the guard sends the visitor to the login page
    in both cases. *)
Theorem session_opens_and_closes {R : Runtime} (html : page)
        (session : bool) (name id pw : jsstring) (b : browser)
        (ps : list (jsstring * jsvalue)) :
  supabase b = false ->
  getUsers (localStorage b) = JObj ps ->
  ~ duplicate_account (registerUser name id pw b) ->
  let b' := registerUser name id pw b in
  currentUser_item (localStorage b') = Some (normalize id)
  /\ (normalize id <> [] ->
      initDashboard_guarded html session b'
      = (b', Entered (initDashboard html)))
  /\ (normalize id = [] ->
      initDashboard_guarded html session b' = (to_login b', SentToLogin))
  /\ currentUser_item (localStorage (logoutUser b')) = None
  /\ initDashboard_guarded html session (logoutUser b')
     = (logoutUser b', SentToLogin).
Proof.
  intros Hs _ Hacc. cbv zeta.
  destruct (@registerUser_outcome R name id pw b Hs) as (Hyes & Hno).
  destruct (truthy_value (get (getUsers (localStorage b)) (normalize id)))
    eqn:E.
  { destruct Hacc. now apply Hyes. }
  destruct (Hno eq_refl) as (_ & Hcur & _).
  assert (Hs' : supabase (registerUser name id pw b) = false)
    by now rewrite registerUser_supabase.
  remember (registerUser name id pw b) as b' eqn:Eb. clear Eb Hyes Hno Hacc.
  split; [exact Hcur|].
  unfold initDashboard_guarded. rewrite Hs', Hcur.
  split; [|split; [|split]].
  - destruct (normalize id); [congruence | reflexivity].
  - intros ->. reflexivity.
  - reflexivity.
  - unfold logoutUser, to_login. simpl. rewrite Hs'. reflexivity.
Qed.

(** Bob has registered: the dashboard opens.  The visitor who registered
    with a blank identifier is sent to the login page. *)
Lemma session_opens_and_closes_bob :
  snd (initDashboard_guarded html0 false
         (registerUser (R := ascii_runtime) (str "Bob") (str " Bob@X.com")
                       (str "pw2") alice_browser))
  = Entered (initDashboard html0)
  /\ ~ duplicate_account blank_browser
  /\ snd (initDashboard_guarded html0 false blank_browser) = SentToLogin.
Proof.
  assert (Hbob : ~ duplicate_account
                     (registerUser (R := ascii_runtime) (str "Bob")
                        (str " Bob@X.com") (str "pw2") alice_browser))
    by (vm_compute; discriminate).
  assert (Hblank : ~ duplicate_account blank_browser)
    by (vm_compute; discriminate).
  split; [|split; [exact Hblank|]].
  - rewrite (proj1 (proj2 (@session_opens_and_closes ascii_runtime html0
                             false (str "Bob") (str " Bob@X.com")
                             (str "pw2") alice_browser alice_accounts
                             eq_refl eq_refl Hbob))
                   ltac:(vm_compute; discriminate)).
    reflexivity.
  - unfold blank_browser.
    rewrite (proj1 (proj2 (proj2
               (@session_opens_and_closes ascii_runtime html0 false
                  (str "Nobody") (str "  ") (str "pw") new_browser []
                  eq_refl eq_refl Hblank)))
               eq_refl).
    reflexivity.
Defined.

(** X9.  After a successful login the guard of the dashboard lets the
    visitor in when the stored identifier is not empty.  An account stored
    under the empty identifier logs in as well, and is then sent back to the
    login page: the guard takes the empty session pointer for none. *)
Theorem dashboard_after_login {R : Runtime} (html : page) (session : bool)
        (id pw : jsstring) (b : browser) (ps : list (jsstring * jsvalue)) :
  supabase b = false ->
  getUsers (localStorage b) = JObj ps ->
  has_account (normalize id) pw ps ->
  let b' := loginUser id pw b in
  (normalize id <> [] ->
   initDashboard_guarded html session b' = (b', Entered (initDashboard html)))
  /\ (normalize id = [] ->
      initDashboard_guarded html session b' = (to_login b', SentToLogin)).
Proof.
  intros Hs Hu Hhas. cbv zeta.
  rewrite (proj1 (@loginUser_decides R id pw b ps Hs Hu) Hhas).
  unfold initDashboard_guarded, login_ok. simpl. rewrite Hs.
  destruct (normalize id); split; intros H; try congruence; reflexivity.
Qed.

(** Alice enters the dashboard; the visitor who registered with a blank
    identifier logs in and is sent back. *)
Lemma dashboard_after_login_examples :
  snd (initDashboard_guarded html0 false
         (loginUser (R := ascii_runtime) (str "a@x.com") (str "pw1")
                    alice_browser))
  = Entered (initDashboard html0)
  /\ snd (initDashboard_guarded html0 false
            (loginUser (R := ascii_runtime) (str " ") (str "pw")
                       blank_browser))
     = SentToLogin.
Proof.
  split.
  - rewrite (proj1 (@dashboard_after_login ascii_runtime html0 false
                      (str "a@x.com") (str "pw1") alice_browser
                      alice_accounts eq_refl eq_refl
                      (ex_intro _ _ (conj eq_refl eq_refl)))
                   ltac:(discriminate)).
    reflexivity.
  - rewrite (proj2 (@dashboard_after_login ascii_runtime html0 false
                    (str " ") (str "pw") blank_browser
                    [([], account (str "Nobody") [] (str "pw"))]
                    eq_refl eq_refl
                    (ex_intro _ _ (conj eq_refl eq_refl)))
                 eq_refl).
    reflexivity.
Defined.

(* ------------------------------------------------------------------ *)
(** ** More on the ledger *)

Section CellFacts.

Lemma itemRows_input (h : handle) (f : field) (v : jsstring) (p : page) :
  itemRows (input h f v p)
  = map (fun it =>
           if Nat.eqb (row it) h then
             match f with
             | Description => set_field f v it
             | _ => updateRowTotal (set_field f v it)
             end
           else it) (itemRows p).
Proof. unfold input. destruct f; reflexivity. Qed.


Lemma filter_keeps_map (h : handle) (g : item -> item) (rows : list item) :
  (forall it, row (g it) = row it) ->
  filter (keeps h)
         (map (fun it => if Nat.eqb (row it) h then g it else it) rows)
  = filter (keeps h) rows.
Proof.
  intros Hg. induction rows as [|it rows IH]; [reflexivity|].
  cbn [map filter]. destruct (Nat.eqb (row it) h) eqn:E.
  - assert (K : keeps h (g it) = false) by (unfold keeps; now rewrite Hg, E).
    assert (K' : keeps h it = false) by (unfold keeps; now rewrite E).
    rewrite K, K'. exact IH.
  - assert (K : keeps h it = true) by (unfold keeps; now rewrite E).
    rewrite K. now rewrite IH.
Qed.

End CellFacts.



Section RoundTripFacts.

Lemma existsb_last (h : handle) (body : list handle) :
  existsb (Nat.eqb h) (body ++ [h]) = true.
Proof.
  rewrite existsb_app. simpl. rewrite Nat.eqb_refl.
  now rewrite orb_true_r.
Qed.

Lemma removeChild_last (h : handle) (body : list handle) :
  ~ In h body -> removeChild h (body ++ [h]) = body.
Proof.
  induction body as [|c body IH]; simpl; intros H.
  - now rewrite Nat.eqb_refl.
  - destruct (Nat.eqb_spec c h) as [E|E]; [exfalso; auto|].
    f_equal. apply IH. tauto.
Qed.

Lemma splice_last (h : handle) (rows : list item) (it : item) :
  ~ In h (map row rows) -> row it = h ->
  match findIndex h (rows ++ [it]) with
  | Some idx => splice1 idx (rows ++ [it])
  | None => rows ++ [it]
  end = rows.
Proof.
  intros Hnot Hrow.
  assert (Hidx : findIndex h (rows ++ [it]) = Some (List.length rows)).
  { induction rows as [|a rows IH]; simpl.
    - now rewrite Hrow, Nat.eqb_refl.
    - simpl in Hnot. destruct (Nat.eqb_spec (row a) h) as [E|E];
        [exfalso; auto|].
      rewrite IH by tauto. reflexivity. }
  rewrite Hidx. unfold splice1.
  rewrite firstn_app, firstn_all, Nat.sub_diag.
  rewrite skipn_all2 by (rewrite length_app; simpl; lia).
  simpl. now rewrite !app_nil_r.
Qed.

Lemma fresh_handle (p : page) :
  page_ok p -> ~ In (created p) (map row (itemRows p)).
Proof.
  intros (_ & _ & Hfresh) Hin.
  apply in_map_iff in Hin as (it & E & Hin).
  rewrite Forall_forall in Hfresh. specialize (Hfresh it Hin). lia.
Qed.

End RoundTripFacts.

(** X11.  A row that was just added is removed again: the table and the
    list are as before, the totals shown are those of the rows that were
    there, and the listener returns. *)
Theorem add_then_remove (p : page) :
  page_ok p ->
  let q := remove_click (created p) (addItemRow p) in
  snd q = Returned
  /\ itemRows (fst q) = itemRows p
  /\ itemsTableBody (fst q) = itemsTableBody p
  /\ subtotalDisplay (fst q) = subtotalDisplay (recalcTotals p)
  /\ gstDisplay (fst q) = gstDisplay (recalcTotals p)
  /\ totalDisplay (fst q) = totalDisplay (recalcTotals p).
Proof.
  intros Hok. cbv zeta. pose proof (fresh_handle Hok) as Hnew.
  destruct Hok as (_ & Hbody & _).
  unfold remove_click, addItemRow. cbn [itemsTableBody itemRows set_rows].
  rewrite existsb_last.
  rewrite removeChild_last by (rewrite Hbody; exact Hnew).
  rewrite splice_last by (exact Hnew || reflexivity).
  repeat split.
Qed.

(** A second row is added to the fresh dashboard and removed again. *)
Lemma add_then_remove_first :
  itemRows (fst (remove_click 1 (addItemRow (initDashboard html0))))
  = itemRows (initDashboard html0).
Proof.
  refine (proj1 (proj2 (@add_then_remove (initDashboard html0) _))).
  apply reachable_ok. apply reach_init.
Defined.

(** X12.  Typing into a row keeps the rows and their order, and leaves the
    entry of every other row as it was; typing a description changes no
    line total and none of the totals shown. *)
Theorem input_touches_one_row (h : handle) (f : field) (v : jsstring)
        (p : page) :
  map row (itemRows (input h f v p)) = map row (itemRows p)
  /\ itemsTableBody (input h f v p) = itemsTableBody p
  /\ filter (keeps h) (itemRows (input h f v p))
     = filter (keeps h) (itemRows p)
  /\ (f = Description ->
      map lineTotal (itemRows (input h f v p)) = map lineTotal (itemRows p)
      /\ map totalTd (itemRows (input h f v p)) = map totalTd (itemRows p)
      /\ subtotalDisplay (input h f v p) = subtotalDisplay p
      /\ gstDisplay (input h f v p) = gstDisplay p
      /\ totalDisplay (input h f v p) = totalDisplay p).
Proof.
  rewrite itemRows_input. split; [|split; [|split]].
  - rewrite map_map. apply map_ext. intros it.
    destruct (Nat.eqb (row it) h); [destruct f|]; reflexivity.
  - destruct f; reflexivity.
  - apply filter_keeps_map. intros it. destruct f; reflexivity.
  - intros ->. split; [|split; [|repeat split]].
    + rewrite map_map. apply map_ext. intros it.
      destruct (Nat.eqb (row it) h); reflexivity.
    + rewrite map_map. apply map_ext. intros it.
      destruct (Nat.eqb (row it) h); reflexivity.
Qed.

Section BlankRowFacts.

Lemma add_zero (x : number) :
  (x + S754_zero false)%num = x \/ x = S754_zero true.
Proof. destruct x as [[]|[]| |[] m e]; auto. Qed.

Lemma subtotal_blank_row (rows : list item) (it : item) (m : jsstring) :
  lineTotal it = S754_zero false ->
  subtotal (computeTotals (rows ++ [it]) m)
  = (subtotal (computeTotals rows m) + S754_zero false)%num.
Proof.
  intros H. unfold computeTotals. simpl. rewrite fold_left_app. simpl.
  unfold lineTotal in H. now rewrite H.
Qed.

Lemma shown_computeTotals (rows : list item) (m : jsstring) :
  let t := computeTotals rows m in
  [toFixed2 (subtotal t); toFixed2 (gst t); toFixed2 (total t)]
  = shown (subtotal t) m.
Proof. reflexivity. Qed.

Lemma shown_zero (m : jsstring) :
  shown (S754_zero false) m = shown (S754_zero true) m.
Proof.
  unfold shown. cbv zeta.
  destruct (coerce m / lit_100)%num as [[]|[]| |[] mk ek]; reflexivity.
Qed.

Lemma shown_blank_row (rows : list item) (it : item) (m : jsstring) :
  lineTotal it = S754_zero false ->
  shown (subtotal (computeTotals (rows ++ [it]) m)) m
  = shown (subtotal (computeTotals rows m)) m.
Proof.
  intros H. rewrite (subtotal_blank_row rows it m H).
  destruct (add_zero (subtotal (computeTotals rows m))) as [->| ->];
    [reflexivity|].
  apply shown_zero.
Qed.

End BlankRowFacts.

(** X13.  Adding a row needs no recalculation: the totals computed with the
    blank row are the totals computed without it, so recalculating after
    the addition shows what recalculating before it shows. *)
Theorem blank_row_keeps_totals (p : page) :
  recalcTotals (addItemRow p) = addItemRow (recalcTotals p).
Proof.
  pose proof (shown_blank_row (itemRows p)
                {| row := created p; descInput := [];
                   qtyInput := {| min := str "0"; step := str "1";
                                  value := str "0" |};
                   priceInput := {| min := str "0"; step := str "0.01";
                                    value := str "0" |};
                   totalTd := str "0.00" |}
                (marginInput p) eq_refl) as H.
  rewrite <- !shown_computeTotals in H. cbv zeta in H.
  injection H as H1 H2 H3.
  unfold recalcTotals, addItemRow, set_rows.
  cbn [itemsTableBody itemRows marginInput subtotalDisplay gstDisplay
       totalDisplay clientName created].
  f_equal; assumption.
Qed.

(* ------------------------------------------------------------------ *)
(** ** The job description and the file name *)

Section TrimFacts.

Lemma trim_start_white (w s : jsstring) :
  white w -> trim_start (w ++ s) = trim_start s.
Proof.
  induction 1 as [|c w Hc _ IH]; [reflexivity|]. simpl. now rewrite Hc.
Qed.

Lemma trim_start_bare (s : jsstring) : starts_bare s -> trim_start s = s.
Proof. destruct s as [|c s]; simpl; [reflexivity|]. now intros ->. Qed.

Lemma trim_start_is_bare (s : jsstring) : starts_bare (trim_start s).
Proof.
  induction s as [|c s IH]; simpl; [exact I|].
  destruct (is_white_space c) eqn:E; [exact IH | exact E].
Qed.

Lemma trim_start_split (s : jsstring) :
  exists w, white w /\ s = w ++ trim_start s.
Proof.
  induction s as [|c s (w & Hw & E)]; simpl.
  - exists []. split; [constructor | reflexivity].
  - destruct (is_white_space c) eqn:Ec.
    + exists (c :: w). split; [now constructor | simpl; now f_equal].
    + exists []. split; [constructor | reflexivity].
Qed.

Lemma trim_start_app (a b : jsstring) :
  trim_start a <> [] -> trim_start (a ++ b) = trim_start a ++ b.
Proof.
  induction a as [|c a IH]; simpl; [congruence|].
  destruct (is_white_space c); [exact IH | reflexivity].
Qed.

Lemma trim_start_all_white (s : jsstring) :
  white s -> trim_start s = [].
Proof.
  intros H. rewrite <- (app_nil_r s). now rewrite trim_start_white.
Qed.

Lemma trim_start_nil_white (s : jsstring) :
  trim_start s = [] -> white s.
Proof.
  intros H. destruct (trim_start_split s) as (w & Hw & E).
  rewrite H, app_nil_r in E. now subst.
Qed.

Lemma white_app (a b : jsstring) : white a -> white b -> white (a ++ b).
Proof. intros Ha Hb. apply Forall_app. now split. Qed.

Lemma white_rev (a : jsstring) : white a -> white (rev a).
Proof. apply Forall_rev. Qed.

Lemma trim_end_white (s w : jsstring) :
  white w -> trim_end (s ++ w) = trim_end s.
Proof.
  intros Hw. unfold trim_end. rewrite rev_app_distr.
  now rewrite trim_start_white by now apply white_rev.
Qed.

Lemma trim_end_bare (s : jsstring) :
  starts_bare (rev s) -> trim_end s = s.
Proof.
  intros H. unfold trim_end. rewrite trim_start_bare by exact H.
  apply rev_involutive.
Qed.

(** What [trim_end] leaves begins as the text began. *)
Lemma trim_end_keeps_head (s : jsstring) :
  starts_bare s -> starts_bare (trim_end s).
Proof.
  intros Hs. unfold trim_end.
  destruct (trim_start_split (rev s)) as (w & Hw & E).
  destruct (trim_start (rev s)) as [|c u] eqn:Eu; [exact I|].
  assert (Es : s = rev (c :: u) ++ rev w).
  { rewrite <- rev_app_distr, <- E. symmetry. apply rev_involutive. }
  destruct (rev (c :: u)) as [|d r] eqn:Er.
  - apply (f_equal (@List.length _)) in Er. rewrite length_rev in Er.
    discriminate.
  - rewrite Es in Hs. exact Hs.
Qed.

Lemma trim_is_bare (s : jsstring) : bare (trim s).
Proof.
  split.
  - apply trim_end_keeps_head, trim_start_is_bare.
  - unfold trim, trim_end. rewrite rev_involutive. apply trim_start_is_bare.
Qed.

Lemma trim_bare (s : jsstring) : bare s -> trim s = s.
Proof.
  intros (Hh & Ht). unfold trim. rewrite trim_start_bare by exact Hh.
  now apply trim_end_bare.
Qed.

Lemma trim_white_tail (s w : jsstring) :
  white w -> trim (s ++ w) = trim s.
Proof.
  intros Hw. unfold trim.
  destruct (trim_start s) as [|c u] eqn:E.
  - rewrite trim_start_all_white; [reflexivity|].
    apply white_app; [|exact Hw]. now apply trim_start_nil_white.
  - rewrite trim_start_app by (rewrite E; discriminate).
    rewrite E. now apply trim_end_white.
Qed.

Lemma starts_bare_app (a b : jsstring) :
  a <> [] -> starts_bare a -> starts_bare (a ++ b).
Proof. destruct a as [|c a]; [congruence|]. intros _ H. exact H. Qed.

End TrimFacts.

(** X14.  What a voice result makes of the job description: the new text
    never begins or ends with white space; an empty description becomes the
    trimmed transcript; a transcript of white space only leaves the trimmed
    description; and a description and a transcript without white space at
    their ends are joined by one space. *)
Theorem onresult_text (transcript jobDescription : jsstring) :
  bare (onresult transcript jobDescription)
  /\ onresult transcript [] = trim transcript
  /\ (white transcript ->
      onresult transcript jobDescription = trim jobDescription)
  /\ (bare jobDescription -> bare transcript ->
      jobDescription <> [] -> transcript <> [] ->
      onresult transcript jobDescription
      = jobDescription ++ str " " ++ transcript).
Proof.
  unfold onresult. split; [apply trim_is_bare|]. split; [|split].
  - reflexivity.
  - intros Hw. apply trim_white_tail. constructor; [reflexivity | exact Hw].
  - intros (Hd & _) (_ & Ht) Hdn Htn. apply trim_bare. split.
    + now apply starts_bare_app.
    + rewrite !rev_app_distr, <- app_assoc. apply starts_bare_app;
        [|exact Ht].
      intros E. apply Htn. rewrite <- (rev_involutive transcript), E.
      reflexivity.
Qed.

(** A second sentence is dictated. *)
Lemma onresult_text_example :
  onresult (str "fit new tap") (str "Replace washer;")
  = str "Replace washer; fit new tap".
Proof.
  apply (proj2 (proj2 (proj2
           (onresult_text (str "fit new tap") (str "Replace washer;")))));
    vm_compute; intuition discriminate.
Defined.

(** X15.  The exported file is always called [quote-], a name, [.pdf]: the
    name is never empty and holds no white space, whatever the client is
    called. *)
Theorem pdf_filename_has_a_name (p : page) :
  exists name,
    pdf_filename p = str "quote-" ++ name ++ str ".pdf"
    /\ name <> []
    /\ Forall (fun c => is_white_space c = false) name.
Proof.
  exists (replace_ws false (or_string (clientName p) (str "Client"))).
  split; [apply pdf_filename_spelled_out|]. split.
  - apply replace_ws_nonempty. unfold or_string.
    destruct (clientName p); simpl; discriminate.
  - apply replace_ws_clean.
Qed.

(* ------------------------------------------------------------------ *)
(** ** The e-mail draft *)

Section EncodeFacts.

Lemma pair_ind (P : jsstring -> Prop) :
  P [] ->
  (forall c, P [c]) ->
  (forall c d r, P r -> P (d :: r) -> P (c :: d :: r)) ->
  forall s, P s.
Proof.
  intros H0 H1 H2 s.
  assert (H : P s /\ forall c, P (c :: s)); [|tauto].
  induction s as [|a s [IH1 IH2]]; [auto|]. split; auto.
Qed.

Lemma unreserved_small (c : code_unit) :
  is_unreserved c = true -> (c < 127)%N.
Proof.
  unfold is_unreserved.
  rewrite !orb_true_iff, !andb_true_iff, !N.leb_le, !N.eqb_eq. lia.
Qed.

Lemma small_ordinary (c : code_unit) : (c < 55296)%N -> ordinary c.
Proof.
  intros H. unfold ordinary, is_lead, is_trail.
  rewrite !andb_false_iff, !N.leb_gt. lia.
Qed.

Lemma seven_bit_ordinary (c : code_unit) : seven_bit c -> ordinary c.
Proof. unfold seven_bit. intros H. apply small_ordinary. lia. Qed.

Lemma seven_bit_valid (c : code_unit) : seven_bit c -> valid_unit c.
Proof. unfold seven_bit, valid_unit. lia. Qed.

Lemma white_ordinary (c : code_unit) :
  is_white_space c = true -> ordinary c.
Proof.
  unfold is_white_space, ordinary, is_lead, is_trail.
  rewrite !orb_true_iff, !andb_true_iff, !andb_false_iff, !N.leb_le,
    !N.leb_gt, !N.eqb_eq. lia.
Qed.

Lemma well_formed_step (c : code_unit) (s : jsstring) :
  well_formed (c :: s)
  = if is_lead c then
      match s with
      | d :: r' => is_trail d && well_formed r'
      | [] => false
      end
    else negb (is_trail c) && well_formed s.
Proof. reflexivity. Qed.

Lemma encode_step (c : code_unit) (s : jsstring) :
  encodeURIComponent (c :: s)
  = if is_unreserved c then option_map (cons c) (encodeURIComponent s)
    else if is_lead c then
      match s with
      | d :: r' =>
          if is_trail d
          then option_map (app (escape (code_point c d)))
                          (encodeURIComponent r')
          else None
      | [] => None
      end
    else if is_trail c then None
    else option_map (app (escape c)) (encodeURIComponent s).
Proof. reflexivity. Qed.

Lemma well_formed_cons (c : code_unit) (s : jsstring) :
  ordinary c -> well_formed (c :: s) = well_formed s.
Proof. intros (Hl & Ht). simpl. now rewrite Hl, Ht. Qed.

Lemma well_formed_fixed (a rest : jsstring) :
  Forall ordinary a -> well_formed (a ++ rest) = well_formed rest.
Proof.
  induction 1 as [|c a Hc _ IH]; [reflexivity|].
  rewrite <- app_comm_cons, well_formed_cons by exact Hc. exact IH.
Qed.

Lemma well_formed_ordinary (a : jsstring) :
  Forall ordinary a -> well_formed a = true.
Proof.
  intros H. rewrite <- (app_nil_r a). now rewrite well_formed_fixed.
Qed.

Lemma well_formed_app (a b : jsstring) :
  starts_no_trail b ->
  well_formed (a ++ b) = well_formed a && well_formed b.
Proof.
  intros Hb. induction a as [|c|c d r IH1 IH2] using pair_ind.
  - reflexivity.
  - simpl. destruct (is_lead c).
    + destruct b as [|d b]; [reflexivity|]. simpl in Hb. now rewrite Hb.
    + now rewrite andb_true_r.
  - change ((c :: d :: r) ++ b) with (c :: (d :: r) ++ b).
    rewrite (well_formed_step c ((d :: r) ++ b)).
    rewrite (well_formed_step c (d :: r)).
    destruct (is_lead c).
    + change ((d :: r) ++ b) with (d :: r ++ b). cbv iota.
      now rewrite IH1, andb_assoc.
    + now rewrite IH2, andb_assoc.
Qed.

(** A text followed by fixed words. *)
Lemma well_formed_then (x f rest : jsstring) :
  Forall ordinary f -> f <> [] ->
  well_formed (x ++ f ++ rest) = well_formed x && well_formed rest.
Proof.
  intros Hf Hne. rewrite well_formed_app.
  - now rewrite well_formed_fixed.
  - destruct f as [|c f]; [congruence|]. inversion Hf as [|? ? [_ Hc] _].
    exact Hc.
Qed.

Lemma encode_well_formed (s : jsstring) :
  match encodeURIComponent s with
  | Some _ => true
  | None => false
  end = well_formed s.
Proof.
  induction s as [|c|c d r IH1 IH2] using pair_ind.
  - reflexivity.
  - simpl. destruct (is_unreserved c) eqn:U.
    + destruct (small_ordinary (c := c)) as (-> & ->);
        [apply unreserved_small in U; lia | reflexivity].
    + destruct (is_lead c); [reflexivity|].
      destruct (is_trail c); reflexivity.
  - rewrite (encode_step c (d :: r)), (well_formed_step c (d :: r)).
    destruct (is_unreserved c) eqn:U.
    + destruct (small_ordinary (c := c)) as (-> & ->);
        [apply unreserved_small in U; lia |].
      simpl negb. rewrite andb_true_l. rewrite <- IH2.
      destruct (encodeURIComponent (d :: r)); reflexivity.
    + destruct (is_lead c).
      * destruct (is_trail d); [|reflexivity]. rewrite andb_true_l.
        rewrite <- IH1. destruct (encodeURIComponent r); reflexivity.
      * destruct (is_trail c); [reflexivity|]. simpl negb.
        rewrite andb_true_l. rewrite <- IH2.
        destruct (encodeURIComponent (d :: r)); reflexivity.
Qed.

Lemma upper_hex_unreserved (n : N) :
  (n < 16)%N -> is_unreserved (upper_hex n) = true.
Proof.
  intros H. destruct n as [|p]; [reflexivity|].
  do 4 (destruct p as [p|p|]; try reflexivity); lia.
Qed.

Lemma percent_safe (octet : N) :
  (octet < 256)%N -> Forall (fun c => uri_safe c = true) (percent octet).
Proof.
  intros H. unfold percent, uri_safe. repeat constructor.
  - rewrite upper_hex_unreserved; [reflexivity|].
    apply N.Div0.div_lt_upper_bound. lia.
  - rewrite upper_hex_unreserved; [reflexivity|].
    apply N.mod_lt. lia.
Qed.

Lemma utf8_octets (cp : N) :
  (cp < 1114112)%N -> Forall (fun o => (o < 256)%N) (utf8 cp).
Proof.
  intros H. unfold utf8.
  pose proof (N.mod_lt cp 64 ltac:(lia)).
  pose proof (N.mod_lt (cp / 64) 64 ltac:(lia)).
  pose proof (N.mod_lt (cp / 4096) 64 ltac:(lia)).
  destruct (N.ltb_spec cp 128); [repeat constructor; lia|].
  destruct (N.ltb_spec cp 2048).
  { pose proof (N.Div0.div_lt_upper_bound cp 64 32 ltac:(lia)).
    repeat constructor; lia. }
  destruct (N.ltb_spec cp 65536).
  { pose proof (N.Div0.div_lt_upper_bound cp 4096 16 ltac:(lia)).
    repeat constructor; lia. }
  pose proof (N.Div0.div_lt_upper_bound cp 262144 5 ltac:(lia)).
  repeat constructor; lia.
Qed.

Lemma escape_safe (cp : N) :
  (cp < 1114112)%N -> Forall (fun c => uri_safe c = true) (escape cp).
Proof.
  intros H. unfold escape. apply Forall_concat, Forall_map.
  apply Forall_impl with (2 := utf8_octets H).
  intros o Ho. now apply percent_safe.
Qed.

Lemma code_point_bound (c d : code_unit) :
  is_lead c = true -> is_trail d = true -> (code_point c d < 1114112)%N.
Proof.
  unfold is_lead, is_trail, code_point.
  rewrite !andb_true_iff, !N.leb_le. lia.
Qed.

Lemma encode_safe (s r : jsstring) :
  valid_string s -> encodeURIComponent s = Some r ->
  Forall (fun c => uri_safe c = true) r.
Proof.
  revert r. induction s as [|c|c d s IH1 IH2] using pair_ind;
    intros r Hv E.
  - injection E as <-. constructor.
  - inversion Hv as [|? ? Hc _]; subst. simpl in E.
    destruct (is_unreserved c) eqn:U.
    + injection E as <-. repeat constructor. unfold uri_safe. now rewrite U.
    + destruct (is_lead c); [discriminate|].
      destruct (is_trail c); [discriminate|]. injection E as <-.
      rewrite app_nil_r. apply escape_safe. unfold valid_unit in Hc. lia.
  - inversion Hv as [|? ? Hc Hv']; subst.
    inversion Hv' as [|? ? Hd Hv'']; subst.
    rewrite (encode_step c (d :: s)) in E.
    destruct (is_unreserved c) eqn:U.
    + destruct (encodeURIComponent (d :: s)) as [r'|] eqn:E';
        [|discriminate].
      injection E as <-. constructor; [unfold uri_safe; now rewrite U|].
      now apply IH2.
    + destruct (is_lead c) eqn:L.
      * destruct (is_trail d) eqn:T; [|discriminate].
        destruct (encodeURIComponent s) as [r'|] eqn:E'; [|discriminate].
        injection E as <-. apply Forall_app. split.
        -- apply escape_safe. now apply code_point_bound.
        -- now apply IH1.
      * destruct (is_trail c); [discriminate|].
        destruct (encodeURIComponent (d :: s)) as [r'|] eqn:E';
          [|discriminate].
        injection E as <-. apply Forall_app. split.
        -- apply escape_safe. unfold valid_unit in Hc. lia.
        -- now apply IH2.
Qed.

End EncodeFacts.

Section NumberTextFacts.

Lemma plain_app (a b : jsstring) :
  plain_text a -> plain_text b -> plain_text (a ++ b).
Proof. intros Ha Hb. apply Forall_app. now split. Qed.

Lemma plain_firstn (n : nat) (s : jsstring) :
  plain_text s -> plain_text (firstn n s).
Proof.
  intros H. rewrite <- (firstn_skipn n s) in H.
  now apply Forall_app in H.
Qed.

Lemma plain_skipn (n : nat) (s : jsstring) :
  plain_text s -> plain_text (skipn n s).
Proof.
  intros H. rewrite <- (firstn_skipn n s) in H.
  now apply Forall_app in H.
Qed.

Lemma plain_zeros (n : nat) : plain_text (repeat 48%N n).
Proof. induction n; simpl; constructor; [reflexivity | assumption]. Qed.

Lemma plain_uint (d : Decimal.uint) :
  plain_text (str (NilEmpty.string_of_uint d)).
Proof.
  induction d; simpl; try constructor; try reflexivity; assumption.
Qed.

Lemma plain_decimal_digits (n : Z) : plain_text (decimal_digits n).
Proof.
  unfold decimal_digits, NilZero.string_of_uint.
  destruct (N.to_uint (Z.to_N n)) eqn:E; try (rewrite <- E; apply plain_uint).
  repeat constructor.
Qed.

Lemma plain_exponent_suffix (n : Z) : plain_text (exponent_suffix n).
Proof.
  unfold exponent_suffix. apply plain_app; [repeat constructor|].
  apply plain_app; [destruct (n - 1 <? 0)%Z; repeat constructor|].
  apply plain_decimal_digits.
Qed.

Lemma plain_positive_toString (m : positive) (e : Z) :
  plain_text (positive_toString m e).
Proof.
  unfold positive_toString. destruct (fraction m e) as [num den].
  destruct (shortest_digits _ _ _ _ _ _) as [s n].
  pose proof (plain_decimal_digits s) as Hds.
  destruct (_ && _).
  { apply plain_app; [exact Hds | apply plain_zeros]. }
  destruct (_ && _).
  { apply plain_app; [now apply plain_firstn|].
    apply plain_app; [repeat constructor | now apply plain_skipn]. }
  destruct (_ && _).
  { apply plain_app; [repeat constructor|].
    apply plain_app; [apply plain_zeros | exact Hds]. }
  destruct (decimal_digits s) as [|d [|d' ds]]; [constructor| |].
  - inversion Hds; subst. constructor; [assumption|].
    apply plain_exponent_suffix.
  - inversion Hds as [|? ? Hd Hds']; subst. constructor; [assumption|].
    apply plain_app; [repeat constructor|].
    apply plain_app; [exact Hds' | apply plain_exponent_suffix].
Qed.

Lemma plain_Number_toString (x : number) : plain_text (Number_toString x).
Proof.
  destruct x as [s|s| |s m e]; simpl; try destruct s;
    try (repeat constructor; fail).
  - apply plain_app; [repeat constructor | apply plain_positive_toString].
  - apply plain_positive_toString.
Qed.

Lemma plain_two_places (n : Z) : plain_text (two_places n).
Proof.
  unfold two_places.
  assert (H : plain_text (pad_zeros 3 (decimal_digits n))).
  { unfold pad_zeros. apply plain_app;
      [apply plain_zeros | apply plain_decimal_digits]. }
  apply plain_app; [now apply plain_firstn|].
  apply plain_app; [repeat constructor | now apply plain_skipn].
Qed.

Lemma plain_toFixed2 (x : number) : plain_text (toFixed2 x).
Proof.
  destruct x as [s|s| |s m e]; simpl; try destruct s;
    try (repeat constructor; fail);
    repeat (apply plain_app; [repeat constructor|]);
    destruct (at_least_1e21 m e);
    (apply plain_positive_toString || apply plain_two_places).
Qed.

Lemma plain_ordinary (s : jsstring) : plain_text s -> Forall ordinary s.
Proof.
  intros H. apply Forall_impl with (2 := H). apply seven_bit_ordinary.
Qed.

Lemma plain_valid (s : jsstring) : plain_text s -> valid_string s.
Proof.
  intros H. apply Forall_impl with (2 := H). apply seven_bit_valid.
Qed.

End NumberTextFacts.

Section BodyFacts.

Lemma recalcTotals_plain (p : page) : plain_displays (recalcTotals p).
Proof. repeat split; apply plain_toFixed2. Qed.

Lemma fold_lines (rows : list item) (acc : jsstring) :
  fold_left (fun body it => body ++ item_line it) rows acc
  = acc ++ List.concat (map item_line rows).
Proof.
  revert acc. induction rows as [|it rows IH]; intros acc; simpl.
  - now rewrite app_nil_r.
  - now rewrite IH, app_assoc.
Qed.

Lemma email_body_unfold (job : jsstring) (p : page) :
  email_body job p
  = str "Hello," ++ nl ++ nl ++ str "Please find your quote below:"
    ++ nl ++ nl ++ str "Job description: " ++ job ++ (nl ++ nl)
    ++ List.concat (map item_line (itemRows p))
    ++ (nl ++ str "Subtotal: $") ++ subtotalDisplay p
    ++ (nl ++ str "Margin (") ++ marginInput p
    ++ (str "%): included" ++ nl ++ str "GST (10%): $") ++ gstDisplay p
    ++ (nl ++ str "Total: $") ++ totalDisplay p
    ++ (nl ++ nl ++ str "Thank you for your business!" ++ nl).
Proof.
  unfold email_body. rewrite fold_lines.
  repeat rewrite <- app_assoc. reflexivity.
Qed.

Lemma or_item_well_formed (desc : jsstring) :
  well_formed (or_string desc (str "item")) = well_formed desc.
Proof. destruct desc; reflexivity. Qed.

(** A line is the description, or [item], and words without surrogates. *)
Lemma item_line_split (it : item) :
  exists words,
    item_line it = or_string (descInput it) (str "item") ++ words
    /\ words <> []
    /\ Forall (fun c => (c < 55296)%N) words.
Proof.
  unfold item_line. eexists. split; [reflexivity|]. split; [discriminate|].
  assert (P : forall s, plain_text s -> Forall (fun c => (c < 55296)%N) s).
  { intros s H. apply Forall_impl with (2 := H). unfold seven_bit. lia. }
  repeat (apply Forall_app; split);
    first [ apply P, plain_Number_toString
          | apply P, plain_toFixed2
          | repeat constructor ].
Qed.

Lemma lines_well_formed (rows : list item) (rest : jsstring) :
  starts_no_trail rest ->
  well_formed (List.concat (map item_line rows) ++ rest)
  = forallb (fun it => well_formed (descInput it)) rows && well_formed rest.
Proof.
  intros Hrest. induction rows as [|it rows IH]; [reflexivity|].
  cbn [map List.concat forallb].
  destruct (item_line_split it) as (words & -> & Hne & Hw).
  rewrite <- !app_assoc. rewrite well_formed_then.
  - now rewrite or_item_well_formed, IH, andb_assoc.
  - apply Forall_impl with (2 := Hw). apply small_ordinary.
  - exact Hne.
Qed.

Lemma email_body_well_formed (job : jsstring) (p : page) :
  plain_displays p ->
  well_formed (email_body job p)
  = well_formed job && well_formed (marginInput p)
    && forallb (fun it => well_formed (descInput it)) (itemRows p).
Proof.
  intros (Hs & Hg & Ht). rewrite email_body_unfold.
  assert (L : forall w, plain_text (str w) -> Forall ordinary (str w))
    by (intros w; apply plain_ordinary).
  assert (N : Forall ordinary nl) by (apply plain_ordinary; repeat constructor).
  do 7 (rewrite well_formed_fixed by (exact N || (apply L; repeat constructor))).
  rewrite well_formed_then;
    [|apply plain_ordinary; repeat constructor | vm_compute; discriminate].
  rewrite lines_well_formed by reflexivity.
  rewrite well_formed_fixed by (apply plain_ordinary; repeat constructor).
  rewrite well_formed_fixed by (apply plain_ordinary; exact Hs).
  rewrite well_formed_fixed by (apply plain_ordinary; repeat constructor).
  rewrite well_formed_then;
    [|apply plain_ordinary; repeat constructor | vm_compute; discriminate].
  rewrite well_formed_fixed by (apply plain_ordinary; exact Hg).
  rewrite well_formed_fixed by (apply plain_ordinary; repeat constructor).
  rewrite well_formed_fixed by (apply plain_ordinary; exact Ht).
  match goal with
  | |- context [well_formed (nl ++ ?r)] =>
      rewrite (@well_formed_ordinary (nl ++ r))
        by (apply plain_ordinary; vm_compute; repeat constructor)
  end.
  rewrite !andb_true_r.
  destruct (well_formed job), (well_formed (marginInput p)),
    (forallb _ _); reflexivity.
Qed.

Lemma item_line_valid (it : item) :
  valid_string (descInput it) -> valid_string (item_line it).
Proof.
  intros Hd. destruct (item_line_split it) as (words & -> & _ & Hw).
  apply Forall_app. split.
  - destruct (descInput it); [apply valid_literal | exact Hd].
  - apply Forall_impl with (2 := Hw). unfold valid_unit. lia.
Qed.

Lemma email_body_valid (job : jsstring) (p : page) :
  plain_displays p ->
  valid_string job -> valid_string (marginInput p) ->
  Forall (fun it => valid_string (descInput it)) (itemRows p) ->
  valid_string (email_body job p).
Proof.
  intros (Hs & Hg & Ht) Hj Hm Hrows. rewrite email_body_unfold.
  assert (Hl : valid_string (List.concat (map item_line (itemRows p)))).
  { apply Forall_concat, Forall_map.
    apply Forall_impl with (2 := Hrows). apply item_line_valid. }
  assert (N : valid_string nl) by (repeat constructor).
  repeat (apply Forall_app; split);
    try apply valid_literal; try assumption; now apply plain_valid.
Qed.

Lemma trim_well_formed (s : jsstring) :
  well_formed (trim s) = well_formed s.
Proof.
  assert (W : forall w, white w -> Forall ordinary w).
  { intros w H. apply Forall_impl with (2 := H). apply white_ordinary. }
  destruct (trim_start_split s) as (w1 & Hw1 & E1).
  destruct (trim_start_split (rev (trim_start s))) as (w2 & Hw2 & E2).
  assert (E : trim_start s = trim s ++ rev w2).
  { unfold trim, trim_end. rewrite <- rev_app_distr, <- E2.
    symmetry. apply rev_involutive. }
  assert (A : well_formed s = well_formed (trim_start s)).
  { rewrite E1 at 1. apply well_formed_fixed. now apply W. }
  rewrite A, E. destruct w2 as [|c w2].
  - simpl. now rewrite app_nil_r.
  - rewrite <- (app_nil_r (rev (c :: w2))).
    rewrite well_formed_then.
    + now rewrite andb_true_r.
    + apply W. now apply white_rev.
    + intros H. apply (f_equal (@List.length _)) in H.
      rewrite length_rev in H. discriminate.
Qed.

End BodyFacts.

Section MailFacts.

Lemma mailto_well_formed (to subject body : jsstring) :
  match mailto to subject body with
  | Some _ => true
  | None => false
  end = well_formed to && well_formed subject && well_formed body.
Proof.
  unfold mailto. rewrite <- !encode_well_formed.
  destruct (encodeURIComponent to); [|reflexivity].
  destruct (encodeURIComponent subject); [|reflexivity].
  destruct (encodeURIComponent body); reflexivity.
Qed.

Lemma sendEmail_well_formed (e name job : jsstring) (p : page) :
  match mailto (trim e) (str "Quote from " ++ name)
               (email_body job (recalcTotals p)) with
  | Some _ => true
  | None => false
  end = mail_texts_well_formed e name job p.
Proof.
  rewrite mailto_well_formed, trim_well_formed.
  rewrite well_formed_fixed
    by (apply plain_ordinary; vm_compute; repeat constructor).
  rewrite email_body_well_formed by apply recalcTotals_plain.
  unfold mail_texts_well_formed. cbn [recalcTotals marginInput itemRows].
  now rewrite !andb_assoc.
Qed.

Lemma count_safe (x : N) (s : list N) :
  uri_safe x = false -> Forall (fun c => uri_safe c = true) s ->
  count_occ N.eq_dec s x = 0.
Proof.
  intros Hx Hs. apply count_occ_not_In. intros Hin.
  rewrite Forall_forall in Hs. specialize (Hs x Hin). congruence.
Qed.

Lemma mailto_counts (to subject body : jsstring) :
  Forall (fun c => uri_safe c = true) to ->
  Forall (fun c => uri_safe c = true) subject ->
  Forall (fun c => uri_safe c = true) body ->
  let href := str "mailto:" ++ to ++ str "?subject=" ++ subject
                  ++ str "&body=" ++ body in
  count_occ N.eq_dec href 63%N = 1 /\ count_occ N.eq_dec href 38%N = 1.
Proof.
  intros Ht Hs Hb. cbv zeta. rewrite !count_occ_app.
  repeat match goal with
         | H : Forall _ ?l |- context [@count_occ ?A ?d ?l ?x] =>
             let E := fresh in
             assert (E : @count_occ A d l x = 0)
               by exact (@count_safe x l eq_refl H);
             rewrite E; clear E
         end.
  split; reflexivity.
Qed.

End MailFacts.

(** X16.  The listener of the e-mail button recomputes the totals, and then
    opens the mail client exactly when no text that goes into the message
    holds a surrogate without its partner; otherwise it ends in a
    [URIError] and no address is opened. *)
Theorem sendEmail_opens_or_throws (clientEmail userName jobDescription
                                    : jsstring) (p : page) :
  let r := sendEmail_click clientEmail userName jobDescription p in
  fst r = recalcTotals p
  /\ (mail_texts_well_formed clientEmail userName jobDescription p = true
      <-> exists href, snd r = MailTo href)
  /\ (mail_texts_well_formed clientEmail userName jobDescription p = false
      <-> snd r = URIError).
Proof.
  cbv zeta. unfold sendEmail_click. cbn [fst snd].
  rewrite <- sendEmail_well_formed.
  destruct (mailto _ _ _) as [href|].
  - split; [reflexivity|]. split; split; try discriminate; eauto.
  - split; [reflexivity|]. split; split; try discriminate; auto.
    intros (href & H). discriminate.
Qed.

(** X17.  Whatever was typed, an address that is opened has the three parts
    the listener wrote and no others: each part holds only unreserved code
    units and percent escapes, so the address has one question mark and one
    ampersand, those of the listener. *)
Theorem mailto_keeps_its_shape (clientEmail userName jobDescription
                                 : jsstring) (p : page) (href : jsstring) :
  valid_string clientEmail -> valid_string userName ->
  valid_string jobDescription -> valid_string (marginInput p) ->
  Forall (fun it => valid_string (descInput it)) (itemRows p) ->
  snd (sendEmail_click clientEmail userName jobDescription p)
  = MailTo href ->
  exists to subject body,
    href = str "mailto:" ++ to ++ str "?subject=" ++ subject
           ++ str "&body=" ++ body
    /\ Forall (fun c => uri_safe c = true) (to ++ subject ++ body)
    /\ count_occ N.eq_dec href 63%N = 1
    /\ count_occ N.eq_dec href 38%N = 1.
Proof.
  intros He Hn Hj Hm Hrows. unfold sendEmail_click. cbn [snd].
  unfold mailto.
  destruct (encodeURIComponent (trim clientEmail)) as [to|] eqn:Et;
    [|discriminate].
  destruct (encodeURIComponent (str "Quote from " ++ userName))
    as [subject|] eqn:Es; [|discriminate].
  destruct (encodeURIComponent (email_body _ _)) as [body|] eqn:Eb;
    [|discriminate].
  intros [= <-].
  assert (St : Forall (fun c => uri_safe c = true) to).
  { apply encode_safe with (2 := Et). now apply trim_valid. }
  assert (Ss : Forall (fun c => uri_safe c = true) subject).
  { apply encode_safe with (2 := Es).
    apply Forall_app. split; [apply valid_literal | exact Hn]. }
  assert (Sb : Forall (fun c => uri_safe c = true) body).
  { apply encode_safe with (2 := Eb).
    apply email_body_valid; try assumption. apply recalcTotals_plain. }
  exists to, subject, body. split; [reflexivity|]. split.
  - apply Forall_app. split; [exact St|]. apply Forall_app. now split.
  - exact (mailto_counts St Ss Sb).
Qed.

(** A subject with an ampersand and a description with a question mark. *)
Lemma mailto_keeps_its_shape_tap :
  count_occ N.eq_dec
    (href_of (snd (sendEmail_click (str " jo@x.com ") (str "Alice & Co")
                                   (str "Fix tap? Yes") tap_page))) 63%N
  = 1.
Proof.
  destruct (@mailto_keeps_its_shape
              (str " jo@x.com ") (str "Alice & Co") (str "Fix tap? Yes")
              tap_page
              (href_of (snd (sendEmail_click (str " jo@x.com ")
                                             (str "Alice & Co")
                                             (str "Fix tap? Yes")
                                             tap_page))))
    as (to & subject & body & _ & _ & H & _).
  - apply valid_literal.
  - apply valid_literal.
  - apply valid_literal.
  - apply (valid_literal "10").
  - repeat constructor; apply (valid_literal "Install tap").
  - vm_compute. reflexivity.
  - exact H.
Defined.

(** Half an emoji at the end of the job description: no message. *)
Lemma sendEmail_opens_or_throws_lone_surrogate :
  snd (sendEmail_click (str "jo@x.com") (str "Alice")
                       (str "Fix tap " ++ [55357%N]) tap_page)
  = URIError.
Proof.
  apply (proj1 (proj2 (proj2
           (sendEmail_opens_or_throws (str "jo@x.com") (str "Alice")
              (str "Fix tap " ++ [55357%N]) tap_page)))).
  reflexivity.
Defined.

(** X18.  The three exports name the account of the session.  Without a
    provider, after the registration of an identifier with an [@] that is
    not yet a key of the stored account map, it is the account just made,
    whose name is the trimmed name that was typed; without a provider,
    after a login with the password of the account stored under the
    identifier, it is that account. *)
Theorem exports_name_the_account {R : Runtime} (name id pw : jsstring)
        (b : browser) (ps : list (jsstring * jsvalue)) :
  (fresh_registration b ps name id pw ->
   user (localStorage (registerUser name id pw b))
   = account (trim name) (normalize id) pw
   /\ get (user (localStorage (registerUser name id pw b))) (str "name")
      = JStr (trim name)
   /\ get (user (localStorage (registerUser name id pw b))) (str "email")
      = JStr (normalize id)
   /\ get (user (localStorage (registerUser name id pw b)))
          (str "password")
      = JStr pw)
  /\ (supabase b = false ->
      getUsers (localStorage b) = JObj ps ->
      has_account (normalize id) pw ps ->
      exists fields,
        own (normalize id) ps = Some (JObj fields)
        /\ user (localStorage (loginUser id pw b)) = JObj fields).
Proof.
  split.
  - intros Hfresh.
    pose proof (@register_adds_account_pointer R name id pw b ps Hfresh)
      as (Hcur & _).
    destruct Hfresh as (Hs & Hu & Hacc & Hn & Hp & Hk & Hat & Hnone).
    destruct (@registerUser_store R name id pw b ps Hs Hu Hacc Hn Hp Hk Hat)
      as (Hnew & _).
    destruct (Hnew Hnone) as (_ & Hget & _).
    assert (E : user (localStorage (registerUser name id pw b))
                = account (trim name) (normalize id) pw).
    { unfold user. rewrite Hget, Hcur. unfold get.
      rewrite own_app_fresh by exact Hnone. reflexivity. }
    rewrite E. repeat split.
  - intros Hs Hu Hhas.
    rewrite (proj1 (@loginUser_decides R id pw b ps Hs Hu) Hhas).
    destruct Hhas as (fields & Hown & _). exists fields.
    split; [exact Hown|].
    unfold user, login_ok. cbn [localStorage].
    rewrite getUsers_session, Hu. cbn [set_currentUser currentUser_item].
    unfold get. rewrite Hown. reflexivity.
Qed.

(** Bob registered with spaces around his name: a quote is from Bob. *)
Lemma exports_name_the_account_bob :
  get (user
         (localStorage
            (registerUser (R := ascii_runtime) (str "  Bob ")
                          (str " Bob@X.com") (str "pw2") alice_browser)))
      (str "name")
  = JStr (str "Bob").
Proof.
  refine (proj1 (proj2 (proj1 (@exports_name_the_account ascii_runtime
                                 (str "  Bob ") (str " Bob@X.com")
                                 (str "pw2") alice_browser alice_accounts)
                              _))).
  unfold fresh_registration.
  split; [reflexivity|]. split; [reflexivity|].
  split; [apply alice_accounts_stored|].
  split; [apply valid_literal|]. split; [apply valid_literal|].
  split; [apply (valid_literal "bob@x.com")|].
  split; [vm_compute; tauto | reflexivity].
Defined.
